(** * moviedb-promise: the request-construction pipeline of [MovieDb]

    A shallow embedding of the core of [src/dist/moviedb.js]
    ([getEndpoint], [normalizeParams], [getParams], [makeRequest],
    [requestToken]) together with the fragment of JavaScript and of
    lodash these methods run on.

    Modelled fragment of JavaScript: values are [undefined], [null],
    booleans, integer-valued numbers, strings and plain data objects
    (own enumerable string-keyed properties).  Strings are sequences of
    bytes (the UTF-8 form of the JavaScript string); arrays, functions,
    symbols, getters and prototype chains are outside the fragment.

    The lodash functions [isObject], [merge] and [omit] are modelled
    after the library on that fragment.  The queue of promise-throttle
    is not modelled: a request is the pair of URL and options that
    [makeRequest] passes to [fetch], and asynchronous methods run one
    after the other. *)

From Stdlib Require Import List Ascii String ZArith NArith Bool Arith Lia.
From Stdlib Require Import DecimalString.
Import ListNotations.

Set Warnings "-register-all".

Local Open Scope string_scope.
Local Open Scope list_scope.
Local Open Scope char_scope.

(** ** Strings *)

Definition str := list ascii.

Definition lit (s : string) : str := list_ascii_of_string s.
Coercion lit : string >-> str.

Fixpoint str_eqb (a b : str) : bool :=
  match a, b with
  | [], [] => true
  | x :: a', y :: b' => Ascii.eqb x y && str_eqb a' b'
  | _, _ => false
  end.

Definition str_in (k : str) (l : list str) : bool := existsb (str_eqb k) l.

Fixpoint join (sep : str) (l : list str) : str :=
  match l with
  | [] => []
  | [x] => x
  | x :: rest => x ++ sep ++ join sep rest
  end.

(** [strip_prefix p s] is [Some rest] when [s = p ++ rest]. *)
Fixpoint strip_prefix (p s : str) : option str :=
  match p, s with
  | [], _ => Some s
  | _ :: _, [] => None
  | a :: p', b :: s' => if Ascii.eqb a b then strip_prefix p' s' else None
  end.

(** The first occurrence of [p] in [s], as the text before and the text
    after it: the search of [String.prototype.indexOf]. *)
Fixpoint split_at_first (p s : str) {struct s} : option (str * str) :=
  match strip_prefix p s with
  | Some rest => Some ([], rest)
  | None =>
      match s with
      | [] => None
      | c :: s' =>
          match split_at_first p s' with
          | Some (before, after) => Some (c :: before, after)
          | None => None
          end
      end
  end.

(** [String.prototype.includes]. *)
Definition includes (s p : str) : bool :=
  match split_at_first p s with Some _ => true | None => false end.

(** [GetSubstitution] of ECMA-262 for a replacement with no capture
    groups: [$$], [$&], [$`] and [$'] are expanded, every other text is
    literal. *)
Fixpoint GetSubstitution (matched before after repl : str) : str :=
  match repl with
  | [] => []
  | c :: r =>
      if Ascii.eqb c "$" then
        match r with
        | d :: r' =>
            if Ascii.eqb d "$" then "$" :: GetSubstitution matched before after r'
            else if Ascii.eqb d "&" then matched ++ GetSubstitution matched before after r'
            else if Ascii.eqb d "`" then before ++ GetSubstitution matched before after r'
            else if Ascii.eqb d "'" then after ++ GetSubstitution matched before after r'
            else c :: GetSubstitution matched before after r
        | [] => [c]
        end
      else c :: GetSubstitution matched before after r
  end.

(** [String.prototype.replace] with a string pattern: the first
    occurrence only. *)
Definition replace (s pat repl : str) : str :=
  match split_at_first pat s with
  | None => s
  | Some (before, after) =>
      before ++ GetSubstitution pat before after repl ++ after
  end.

(** [s.slice(1)]. *)
Definition slice1 (s : str) : str := tl s.

Definition is_lower (c : ascii) : bool :=
  let n := nat_of_ascii c in (97 <=? n)%nat && (n <=? 122)%nat.

Definition is_upper (c : ascii) : bool :=
  let n := nat_of_ascii c in (65 <=? n)%nat && (n <=? 90)%nat.

(** The character class [[a-z]]; with the [i] flag it also takes the
    ASCII capitals (and no character outside ASCII). *)
Definition az (ignoreCase : bool) (c : ascii) : bool :=
  is_lower c || (ignoreCase && is_upper c).

Fixpoint take_while (f : ascii -> bool) (s : str) : str :=
  match s with
  | c :: s' => if f c then c :: take_while f s' else []
  | [] => []
  end.

(** All matches of [/:[a-z]*/g] (or [/:[a-z]*/gi]) in [s], left to
    right.  A match starts at every colon and takes the longest run of
    class characters after it; the characters of that run are not colons,
    so resuming the scan right after the colon finds the same matches as
    resuming after the run. *)
Fixpoint scan_placeholders (ignoreCase : bool) (s : str) : list str :=
  match s with
  | [] => []
  | c :: s' =>
      if Ascii.eqb c ":"
      then (c :: take_while (az ignoreCase) s') :: scan_placeholders ignoreCase s'
      else scan_placeholders ignoreCase s'
  end.

(** [s.match(/:[a-z]*/g)]: [null] when there is no match. *)
Definition match_placeholders (ignoreCase : bool) (s : str) : option (list str) :=
  match scan_placeholders ignoreCase s with
  | [] => None
  | l => Some l
  end.

(** [x || []] and [x ?? []] on the result of [match]. *)
Definition or_empty (m : option (list str)) : list str :=
  match m with Some l => l | None => [] end.

Local Close Scope char_scope.

(** ** Values and objects *)

Inductive value : Type :=
| VUndefined
| VNull
| VBool (b : bool)
| VNum (z : Z)
| VStr (s : str)
| VObj (o : list (str * value)).

(** An object is the list of its own properties in the order of
    [OrdinaryOwnPropertyKeys]: array indices ascending, then the other
    keys in creation order. *)
Definition obj := list (str * value).

Definition Z_to_str (z : Z) : str :=
  lit (NilEmpty.string_of_int (Z.to_int z)).

Definition ToString (v : value) : str :=
  match v with
  | VUndefined => lit "undefined"
  | VNull => lit "null"
  | VBool true => lit "true"
  | VBool false => lit "false"
  | VNum z => Z_to_str z
  | VStr s => s
  | VObj _ => lit "[object Object]"
  end.

(** [ToBoolean]. *)
Definition truthy (v : value) : bool :=
  match v with
  | VUndefined | VNull => false
  | VBool b => b
  | VNum z => negb (z =? 0)%Z
  | VStr s => match s with [] => false | _ => true end
  | VObj _ => true
  end.

Fixpoint obj_lookup (k : str) (o : obj) : option value :=
  match o with
  | [] => None
  | (k', v) :: o' => if str_eqb k k' then Some v else obj_lookup k o'
  end.

(** [o[k]]. *)
Definition obj_get (k : str) (o : obj) : value :=
  match obj_lookup k o with Some v => v | None => VUndefined end.

(** [k in o]. *)
Definition obj_has (k : str) (o : obj) : bool :=
  match obj_lookup k o with Some _ => true | None => false end.

(** [Object.keys(o)]. *)
Definition Object_keys (o : obj) : list str := map fst o.

(** [v.k] on a value that is neither [null] nor [undefined]. *)
Definition prop (v : value) (k : str) : value :=
  match v with VObj o => obj_get k o | _ => VUndefined end.

Definition is_digit (c : ascii) : bool :=
  let n := nat_of_ascii c in (48 <=? n)%nat && (n <=? 57)%nat.

Definition digits_value (s : str) : N :=
  fold_left (fun acc c => (10 * acc + N.of_nat (nat_of_ascii c - 48))%N) s 0%N.

(** The array index a property key denotes, if any: a canonical numeric
    string below [2^32 - 1]. *)
Definition array_index (k : str) : option N :=
  match k with
  | [] => None
  | c :: rest =>
      if forallb is_digit k && (negb (Ascii.eqb c "0"%char) || match rest with [] => true | _ => false end)
      then if (digits_value k <? 4294967295)%N then Some (digits_value k) else None
      else None
  end.

Definition key_before (k k' : str) : bool :=
  match array_index k, array_index k' with
  | Some n, Some n' => (n <? n')%N
  | Some _, None => true
  | None, _ => false
  end.

(** A new property takes its place in the key order. *)
Fixpoint obj_add (k : str) (v : value) (o : obj) : obj :=
  match o with
  | [] => [(k, v)]
  | (k', v') :: o' =>
      if key_before k k' then (k, v) :: o else (k', v') :: obj_add k v o'
  end.

Fixpoint obj_update (k : str) (v : value) (o : obj) : obj :=
  match o with
  | [] => []
  | (k', v') :: o' =>
      if str_eqb k k' then (k', v) :: o' else (k', v') :: obj_update k v o'
  end.

(** [o[k] = v]: an existing property keeps its position. *)
Definition obj_set (k : str) (v : value) (o : obj) : obj :=
  if obj_has k o then obj_update k v o else obj_add k v o.

(** [{...dest, ...src}] for an object [src]. *)
Definition spread (src dest : obj) : obj :=
  fold_left (fun d kv => obj_set (fst kv) (snd kv) d) src dest.

(** Spreading a value of the fragment into an object literal: only an
    object contributes properties ([false], [undefined] and the empty
    string contribute none; non-empty strings are not spread by the
    source). *)
Definition spread_value (v : value) (dest : obj) : obj :=
  match v with VObj o => spread o dest | _ => dest end.


(** ** lodash *)

(** [_.isObject]. *)
Definition isObject (v : value) : bool :=
  match v with VObj _ => true | _ => false end.

(** [assignMergeValue] of lodash: an [undefined] value is assigned only
    to a key the object does not have.  (A value equal to the present
    one is not assigned again, which leaves the same object.) *)
Definition assignMergeValue (object : obj) (key : str) (v : value) : obj :=
  match v with
  | VUndefined => if obj_has key object then object else obj_set key v object
  | _ => obj_set key v object
  end.

Definition obj_or_empty (v : value) : obj :=
  match v with VObj o => o | _ => [] end.

(** [baseMerge] of lodash, on the properties of the source [VObj src]:
    a source value that is an object is merged recursively into the
    destination's value when that is an object, and into a fresh object
    otherwise ([baseMergeDeep]); any other value is assigned. *)
Fixpoint baseMerge (source : value) {struct source} : obj -> obj :=
  match source with
  | VObj src =>
      (fix each (src : obj) (object : obj) {struct src} : obj :=
         match src with
         | [] => object
         | (key, srcValue) :: rest =>
             each rest
               (match srcValue with
                | VObj _ =>
                    assignMergeValue object key
                      (VObj (baseMerge srcValue (obj_or_empty (obj_get key object))))
                | _ => assignMergeValue object key srcValue
                end)
         end) src
  | _ => fun object => object
  end.

(** [_.merge(object, source)]. *)
Definition merge (object source : obj) : obj := baseMerge (VObj source) object.

(** [_.omit(object, paths)] for paths that are plain property names. *)
Definition omit (object : obj) (paths : list str) : obj :=
  filter (fun kv => negb (str_in (fst kv) paths)) object.

(** ** URLSearchParams and JSON *)

Definition hex_digit (upper : bool) (n : nat) : ascii :=
  if (n <? 10)%nat then ascii_of_nat (48 + n)
  else ascii_of_nat ((if upper then 55 else 87) + n).

(** The application/x-www-form-urlencoded byte serializer. *)
Definition urlencode_byte (c : ascii) : str :=
  let n := nat_of_ascii c in
  if is_lower c || is_upper c || is_digit c
     || (n =? 42)%nat || (n =? 45)%nat || (n =? 46)%nat || (n =? 95)%nat
  then [c]
  else if (n =? 32)%nat then ["+"%char]
  else ["%"%char; hex_digit true (n / 16); hex_digit true (n mod 16)].

Definition urlencode (s : str) : str := flat_map urlencode_byte s.

(** [new URLSearchParams(query).toString()]: every own property, its
    value converted to a string. *)
Definition URLSearchParams_toString (query : obj) : str :=
  join (lit "&") (map (fun kv => urlencode (fst kv) ++ lit "=" ++ urlencode (ToString (snd kv))) query).

(** [QuoteJSONString]. *)
Definition json_escape (c : ascii) : str :=
  let n := nat_of_ascii c in
  if (n =? 8)%nat then "\b"
  else if (n =? 9)%nat then "\t"
  else if (n =? 10)%nat then "\n"
  else if (n =? 12)%nat then "\f"
  else if (n =? 13)%nat then "\r"
  else if (n =? 34)%nat then ["\"%char; c]
  else if (n =? 92)%nat then "\\"
  else if (n <? 32)%nat
       then lit "\u00" ++ [hex_digit false (n / 16); hex_digit false (n mod 16)]
       else [c].

Definition QuoteJSONString (s : str) : str :=
  [ascii_of_nat 34] ++ flat_map json_escape s ++ [ascii_of_nat 34].

(** [SerializeJSONProperty]: [None] is the [undefined] result, and a
    property with that result is left out of its object. *)
Fixpoint SerializeJSONProperty (v : value) : option str :=
  match v with
  | VUndefined => None
  | VNull => Some (lit "null")
  | VBool true => Some (lit "true")
  | VBool false => Some (lit "false")
  | VNum z => Some (Z_to_str z)
  | VStr s => Some (QuoteJSONString s)
  | VObj o =>
      Some (lit "{" ++
            join (lit ",")
              ((fix members (o : obj) : list str :=
                  match o with
                  | [] => []
                  | (k, v') :: rest =>
                      match SerializeJSONProperty v' with
                      | Some sv => (QuoteJSONString k ++ lit ":" ++ sv) :: members rest
                      | None => members rest
                      end
                  end) o)
            ++ lit "}")
  end.

(** [JSON.stringify(v)] as the value it returns. *)
Definition JSON_stringify (v : value) : value :=
  match SerializeJSONProperty v with
  | Some s => VStr s
  | None => VUndefined
  end.

(** ** The client *)

(** Modelled from the spec: the [HttpMethod] enumeration of [./types],
    which is not among the sources; the spec names the verbs GET, POST
    and DELETE. *)
Inductive HttpMethod : Type := Get | Post | Delete.

Definition HttpMethod_eqb (a b : HttpMethod) : bool :=
  match a, b with
  | Get, Get | Post, Post | Delete, Delete => true
  | _, _ => false
  end.

(** Modelled from the spec: the string each member of the enumeration
    stands for. *)
Definition HttpMethod_value (m : HttpMethod) : value :=
  match m with
  | Get => VStr "GET"
  | Post => VStr "POST"
  | Delete => VStr "DELETE"
  end.

(** The fields of a [MovieDb] instance; [token] and [sessionId] are
    [undefined] until assigned.  The throttle queue is not part of the
    state the request construction reads. *)
Record MovieDb : Type := mkMovieDb {
  apiKey : value;
  token : value;
  baseUrl : str;
  sessionId : value
}.

(** [new MovieDb(apiKey)] and [new MovieDb(apiKey, baseUrl)]. *)
Definition new_MovieDb (apiKey : str) (baseUrl : option str) : MovieDb :=
  {| apiKey := VStr apiKey;
     token := VUndefined;
     baseUrl := match baseUrl with Some u => u | None => lit "https://api.themoviedb.org/3/" end;
     sessionId := VUndefined |}.

(** A parameter with the default value [{}]. *)
Definition default_empty (params : value) : value :=
  match params with VUndefined => VObj [] | _ => params end.

Section Methods.

Variable this : MovieDb.

(** The callback of the [reduce] in [getEndpoint]:
    [compiled.replace(`:${key}`, params[key])]. *)
Definition replace_key (params : obj) (compiled key : str) : str :=
  replace compiled (":"%char :: key) (ToString (obj_get key params)).

(** [getEndpoint(endpoint, params = {})]. *)
Definition getEndpoint (endpoint : str) (params : obj) : str :=
  fold_left (replace_key params) (Object_keys params) endpoint.

(** [normalizeParams(endpoint, params = {})]. *)
Definition normalizeParams (endpoint : str) (params : value) : obj :=
  match default_empty params with
  | VObj o => o
  | scalar =>
      let matches := or_empty (match_placeholders false endpoint) in
      if (List.length matches =? 1)%nat
      then fold_left (fun o m => obj_set (slice1 m) scalar o) matches []
      else []
  end.

(** The object literal
    [{ api_key: this.apiKey, ...(this.sessionId && { session_id: this.sessionId }) }]. *)
Definition default_params : obj :=
  spread_value
    (if truthy (sessionId this)
     then VObj [(lit "session_id", sessionId this)]
     else sessionId this)
    [(lit "api_key", apiKey this)].

(** [getParams(endpoint, params = {})]. *)
Definition getParams (endpoint : str) (params : obj) : obj :=
  let compiledParams := merge default_params params in
  if includes endpoint ":id"
     && negb (truthy (obj_get "id" compiledParams))
     && truthy (sessionId this)
  then obj_set "id" (VStr "{account_id}") compiledParams
  else compiledParams.

(** The local [omittedProps] of [makeRequest]. *)
Definition omittedProps (endpoint : str) : list str :=
  map slice1 (or_empty (match_placeholders true endpoint)).

(** The local [fullQuery] of [makeRequest]. *)
Definition fullQuery (endpoint : str) (params : value) : obj :=
  getParams endpoint (normalizeParams endpoint params).

(** The local [query] of [makeRequest]: the residual parameters. *)
Definition query (endpoint : str) (params : value) : obj :=
  omit (fullQuery endpoint params) (omittedProps endpoint).

(** The local [url] of [makeRequest]. *)
Definition request_url (method : HttpMethod) (endpoint : str) (params : value) : str :=
  let url := baseUrl this ++ getEndpoint endpoint (fullQuery endpoint params) in
  if HttpMethod_eqb method Get
  then url ++ lit "?" ++ URLSearchParams_toString (query endpoint params)
  else url.

(** The object literal [{ method, ...(method !== Get && { body }) }]
    of [makeRequest], before [fetchOptions] is spread into it. *)
Definition computed_options (method : HttpMethod) (endpoint : str) (params : value) : obj :=
  spread_value
    (if negb (HttpMethod_eqb method Get)
     then VObj [(lit "body", JSON_stringify (VObj (query endpoint params)))]
     else VBool false)
    [(lit "method", HttpMethod_value method)].

(** The local [options] of [makeRequest]. *)
Definition request_options (method : HttpMethod) (endpoint : str) (params : value)
    (fetchOptions : obj) : obj :=
  spread fetchOptions (computed_options method endpoint params).

End Methods.

(** What [makeRequest] hands to [fetch] inside the queued unit of work. *)
Record Request : Type := mkRequest {
  url : str;
  options : obj
}.

(** [makeRequest(method, endpoint, params = {}, fetchOptions = {})], as
    the request it submits to the queue. *)
Definition makeRequest (this : MovieDb) (method : HttpMethod) (endpoint : str)
    (params : value) (fetchOptions : obj) : Request :=
  {| url := request_url this method endpoint params;
     options := request_options this method endpoint params fetchOptions |}.

(** ** The endpoint methods *)

(** [_.isString]. *)
Definition isString (v : value) : bool :=
  match v with VStr _ => true | _ => false end.

(** [parseSearchParams(params)]. *)
Definition parseSearchParams (params : value) : value :=
  if isString params then VObj [(lit "query", params)] else params.

(** What an endpoint method hands to [makeRequest] as its parameters:
    [null], its own [params], [this.parseSearchParams(params)], or
    [isString(params) ? { language: params } : params]. *)
Inductive ParamShape : Type :=
| NoParams
| Params
| SearchParams
| LanguageParams.

(** An endpoint method of the class: its name, and the verb and the
    template of its call of [makeRequest]. *)
Record Endpoint : Type := mkEndpoint {
  method_name : string;
  verb : HttpMethod;
  template : str;
  shape : ParamShape
}.

Definition endpoint_params (s : ParamShape) (params : value) : value :=
  match s with
  | NoParams => VNull
  | Params => params
  | SearchParams => parseSearchParams params
  | LanguageParams => if isString params then VObj [(lit "language", params)] else params
  end.

(** The body of an endpoint method:
    [return this.makeRequest(verb, template, params, fetchOptions)]. *)
Definition call (this : MovieDb) (e : Endpoint) (params : value) (fetchOptions : obj)
    : Request :=
  makeRequest this (verb e) (template e) (endpoint_params (shape e) params) fetchOptions.

(** The endpoint methods of [MovieDb], in the order of the source. *)
Definition endpoints : list Endpoint :=
  [ mkEndpoint "configuration" Get "configuration" NoParams;
    mkEndpoint "countries" Get "configuration/countries" NoParams;
    mkEndpoint "jobs" Get "configuration/jobs" NoParams;
    mkEndpoint "languages" Get "configuration/languages" NoParams;
    mkEndpoint "primaryTranslations" Get "configuration/primary_translations" NoParams;
    mkEndpoint "timezones" Get "configuration/timezones" NoParams;
    mkEndpoint "find" Get "find/:id" Params;
    mkEndpoint "searchCompany" Get "search/company" SearchParams;
    mkEndpoint "searchCollection" Get "search/collection" SearchParams;
    mkEndpoint "searchKeyword" Get "search/keyword" SearchParams;
    mkEndpoint "searchMovie" Get "search/movie" SearchParams;
    mkEndpoint "searchMulti" Get "search/multi" SearchParams;
    mkEndpoint "searchPerson" Get "search/person" SearchParams;
    mkEndpoint "searchTv" Get "search/tv" SearchParams;
    mkEndpoint "searchList" Get "search/list" Params;
    mkEndpoint "collectionInfo" Get "collection/:id" Params;
    mkEndpoint "collectionImages" Get "collection/:id/images" Params;
    mkEndpoint "collectionTranslations" Get "collection/:id/translations" Params;
    mkEndpoint "discoverMovie" Get "discover/movie" Params;
    mkEndpoint "discoverTv" Get "discover/tv" Params;
    mkEndpoint "trending" Get "trending/:media_type/:time_window" Params;
    mkEndpoint "movieInfo" Get "movie/:id" Params;
    mkEndpoint "movieAccountStates" Get "movie/:id/account_states" Params;
    mkEndpoint "movieAlternativeTitles" Get "movie/:id/alternative_titles" Params;
    mkEndpoint "movieChanges" Get "movie/:id/changes" Params;
    mkEndpoint "movieCredits" Get "movie/:id/credits" Params;
    mkEndpoint "movieExternalIds" Get "movie/:id/external_ids" Params;
    mkEndpoint "movieImages" Get "movie/:id/images" Params;
    mkEndpoint "movieKeywords" Get "movie/:id/keywords" Params;
    mkEndpoint "movieReleaseDates" Get "movie/:id/release_dates" Params;
    mkEndpoint "movieVideos" Get "movie/:id/videos" Params;
    mkEndpoint "movieWatchProviders" Get "movie/:id/watch/providers" Params;
    mkEndpoint "movieWatchProviderList" Get "watch/providers/movie" Params;
    mkEndpoint "movieTranslations" Get "movie/:id/translations" Params;
    mkEndpoint "movieRecommendations" Get "movie/:id/recommendations" Params;
    mkEndpoint "movieSimilar" Get "movie/:id/similar" Params;
    mkEndpoint "movieReviews" Get "movie/:id/reviews" Params;
    mkEndpoint "movieLists" Get "movie/:id/lists" Params;
    mkEndpoint "movieRatingUpdate" Post "movie/:id/rating" Params;
    mkEndpoint "movieRatingDelete" Delete "movie/:id/rating" Params;
    mkEndpoint "movieLatest" Get "movie/latest" LanguageParams;
    mkEndpoint "movieNowPlaying" Get "movie/now_playing" Params;
    mkEndpoint "moviePopular" Get "movie/popular" Params;
    mkEndpoint "movieTopRated" Get "movie/top_rated" Params;
    mkEndpoint "upcomingMovies" Get "movie/upcoming" Params;
    mkEndpoint "tvInfo" Get "tv/:id" Params;
    mkEndpoint "tvAccountStates" Get "tv/:id/account_states" Params;
    mkEndpoint "tvAlternativeTitles" Get "tv/:id/alternative_titles" Params;
    mkEndpoint "tvChanges" Get "tv/:id/changes" Params;
    mkEndpoint "tvContentRatings" Get "tv/:id/content_ratings" Params;
    mkEndpoint "tvCredits" Get "tv/:id/credits" Params;
    mkEndpoint "tvAggregateCredits" Get "tv/:id/aggregate_credits" Params;
    mkEndpoint "episodeGroups" Get "tv/:id/episode_groups" Params;
    mkEndpoint "tvExternalIds" Get "tv/:id/external_ids" Params;
    mkEndpoint "tvImages" Get "tv/:id/images" Params;
    mkEndpoint "tvKeywords" Get "tv/:id/keywords" Params;
    mkEndpoint "tvRecommendations" Get "tv/:id/recommendations" Params;
    mkEndpoint "tvReviews" Get "tv/:id/reviews" Params;
    mkEndpoint "tvScreenedTheatrically" Get "tv/:id/screened_theatrically" Params;
    mkEndpoint "tvSimilar" Get "tv/:id/similar" Params;
    mkEndpoint "tvTranslations" Get "tv/:id/translations" Params;
    mkEndpoint "tvVideos" Get "tv/:id/videos" Params;
    mkEndpoint "tvWatchProviders" Get "tv/:id/watch/providers" Params;
    mkEndpoint "tvWatchProviderList" Get "watch/providers/tv" Params;
    mkEndpoint "tvRatingUpdate" Post "tv/:id/rating" Params;
    mkEndpoint "tvRatingDelete" Delete "tv/:id/rating" Params;
    mkEndpoint "tvLatest" Get "tv/latest" Params;
    mkEndpoint "tvAiringToday" Get "tv/airing_today" Params;
    mkEndpoint "tvOnTheAir" Get "tv/on_the_air" Params;
    mkEndpoint "tvPopular" Get "tv/popular" Params;
    mkEndpoint "tvTopRated" Get "tv/top_rated" Params;
    mkEndpoint "seasonInfo" Get "tv/:id/season/:season_number" Params;
    mkEndpoint "seasonChanges" Get "tv/season/:id/changes" Params;
    mkEndpoint "seasonAccountStates" Get "tv/:id/season/:season_number/account_states" Params;
    mkEndpoint "seasonCredits" Get "tv/:id/season/:season_number/credits" Params;
    mkEndpoint "seasonAggregateCredits" Get "tv/:id/season/:season_number/aggregate_credits" Params;
    mkEndpoint "seasonExternalIds" Get "tv/:id/season/:season_number/external_ids" Params;
    mkEndpoint "seasonImages" Get "tv/:id/season/:season_number/images" Params;
    mkEndpoint "seasonVideos" Get "tv/:id/season/:season_number/videos" Params;
    mkEndpoint "episodeInfo" Get "tv/:id/season/:season_number/episode/:episode_number" Params;
    mkEndpoint "episodeChanges" Get "tv/episode/:id/changes" Params;
    mkEndpoint "episodeAccountStates" Get "tv/:id/season/:season_number/episode/:episode_number/account_states" Params;
    mkEndpoint "episodeCredits" Get "tv/:id/season/:season_number/episode/:episode_number/credits" Params;
    mkEndpoint "episodeExternalIds" Get "tv/:id/season/:season_number/episode/:episode_number/external_ids" Params;
    mkEndpoint "episodeImages" Get "tv/:id/season/:season_number/episode/:episode_number/images" Params;
    mkEndpoint "episodeTranslations" Get "tv/:id/season/:season_number/episode/:episode_number/translations" Params;
    mkEndpoint "episodeRatingUpdate" Post "tv/:id/season/:season_number/episode/:episode_number/rating" Params;
    mkEndpoint "episodeRatingDelete" Delete "tv/:id/season/:season_number/episode/:episode_number/rating" Params;
    mkEndpoint "episodeVideos" Get "tv/:id/season/:season_number/episode/:episode_number/translations" Params;
    mkEndpoint "personInfo" Get "person/:id" Params;
    mkEndpoint "personChanges" Get "person/:id/changes" Params;
    mkEndpoint "personMovieCredits" Get "person/:id/movie_credits" Params;
    mkEndpoint "personTvCredits" Get "person/:id/tv_credits" Params;
    mkEndpoint "personCombinedCredits" Get "person/:id/combined_credits" Params;
    mkEndpoint "personExternalIds" Get "person/:id/external_ids" Params;
    mkEndpoint "personImages" Get "person/:id/images" Params;
    mkEndpoint "personTaggedImages" Get "person/:id/tagged_images" Params;
    mkEndpoint "personTranslations" Get "person/:id/translations" Params;
    mkEndpoint "personLatest" Get "person/latest" Params;
    mkEndpoint "personPopular" Get "person/popular" Params;
    mkEndpoint "creditInfo" Get "credit/:id" Params;
    mkEndpoint "listInfo" Get "list/:id" Params;
    mkEndpoint "listStatus" Get "list/:id/item_status" Params;
    mkEndpoint "createList" Post "list" Params;
    mkEndpoint "createListItem" Post "list/:id/add_item" Params;
    mkEndpoint "removeListItem" Post "list/:id/remove_item" Params;
    mkEndpoint "clearList" Post "list/:id/clear" Params;
    mkEndpoint "deleteList" Delete "list/:id" Params;
    mkEndpoint "genreMovieList" Get "genre/movie/list" Params;
    mkEndpoint "genreTvList" Get "genre/tv/list" Params;
    mkEndpoint "keywordInfo" Get "keyword/:id" Params;
    mkEndpoint "keywordMovies" Get "keyword/:id/movies" Params;
    mkEndpoint "companyInfo" Get "company/:id" Params;
    mkEndpoint "companyAlternativeNames" Get "company/:id/alternative_names" Params;
    mkEndpoint "companyImages" Get "company/:id/images" Params;
    mkEndpoint "accountInfo" Get "account" NoParams;
    mkEndpoint "accountLists" Get "account/:id/lists" Params;
    mkEndpoint "accountFavoriteMovies" Get "account/:id/favorite/movies" Params;
    mkEndpoint "accountFavoriteTv" Get "account/:id/favorite/tv" Params;
    mkEndpoint "accountFavoriteUpdate" Post "account/:id/favorite" Params;
    mkEndpoint "accountRatedMovies" Get "account/:id/rated/movies" Params;
    mkEndpoint "accountRatedTv" Get "account/:id/rated/tv" Params;
    mkEndpoint "accountRatedTvEpisodes" Get "account/:id/rated/tv/episodes" Params;
    mkEndpoint "accountMovieWatchlist" Get "account/:id/watchlist/movies" Params;
    mkEndpoint "accountTvWatchlist" Get "account/:id/watchlist/tv" Params;
    mkEndpoint "accountWatchlistUpdate" Post "account/:id/watchlist" Params;
    mkEndpoint "changedMovies" Get "movie/changes" Params;
    mkEndpoint "changedTvs" Get "tv/changes" Params;
    mkEndpoint "changedPeople" Get "person/changes" Params;
    mkEndpoint "movieCertifications" Get "certification/movie/list" NoParams;
    mkEndpoint "tvCertifications" Get "certification/tv/list" NoParams;
    mkEndpoint "networkInfo" Get "network/:id" Params;
    mkEndpoint "networkAlternativeNames" Get "network/:id/alternative_names" Params;
    mkEndpoint "networkImages" Get "network/:id/images" Params;
    mkEndpoint "review" Get "review/:id" Params;
    mkEndpoint "episodeGroup" Get "tv/episode_group/:id" Params ].

(** ** The network and the authentication handshake *)

(** How a promise settles. *)
Inductive outcome (A : Type) : Type :=
| Fulfilled (a : A)
| Rejected (reason : value).

Arguments Fulfilled {A} a.
Arguments Rejected {A} reason.

(** The client together with the requests it has sent so far, oldest
    first. *)
Record World : Type := mkWorld {
  client : MovieDb;
  sent : list Request
}.

(** An asynchronous method, run to completion before the next one
    starts. *)
Definition Async (A : Type) : Type := World -> outcome A * World.

Definition ret {A : Type} (a : A) : Async A := fun w => (Fulfilled a, w).

Definition throw {A : Type} (reason : value) : Async A := fun w => (Rejected reason, w).

Definition bind {A B : Type} (m : Async A) (k : A -> Async B) : Async B :=
  fun w =>
    match m w with
    | (Fulfilled a, w') => k a w'
    | (Rejected reason, w') => (Rejected reason, w')
    end.

Notation "'await' x <- m ; k" := (bind m (fun x => k))
  (at level 61, x name, m at next level, right associativity).

Definition read_client : Async MovieDb := fun w => (Fulfilled (client w), w).

Definition set_token (v : value) : Async unit :=
  fun w =>
    let c := client w in
    (Fulfilled tt,
     {| client := {| apiKey := apiKey c; token := v; baseUrl := baseUrl c;
                     sessionId := sessionId c |};
        sent := sent w |}).

Definition set_sessionId (v : value) : Async unit :=
  fun w =>
    let c := client w in
    (Fulfilled tt,
     {| client := {| apiKey := apiKey c; token := token c; baseUrl := baseUrl c;
                     sessionId := v |};
        sent := sent w |}).

Section Auth.

(** The remote service: how the [n]-th request of a run settles once
    the queue has started it and the body has been decoded. *)
Variable respond : nat -> Request -> outcome value.

(** [new Date(v).getTime()]; [None] is [NaN]. *)
Variable Date_getTime : value -> option Z.

(** [this.queue.add(async () => await (await fetch(url, options)).json())]. *)
Definition dispatch (r : Request) : Async value :=
  fun w =>
    (respond (List.length (sent w)) r,
     {| client := client w; sent := sent w ++ [r] |}).

(** [now > t], false when [t] is [NaN]. *)
Definition later_than (now : Z) (t : option Z) : bool :=
  match t with Some t' => (t' <? now)%Z | None => false end.

(** The condition of [requestToken]:
    [!this.token || Date.now() > new Date(this.token.expires_at).getTime()]. *)
Definition refresh_due (now : Z) (this : MovieDb) : bool :=
  negb (truthy (token this))
  || later_than now (Date_getTime (prop (token this) "expires_at")).

(** [async requestToken()], called when [Date.now()] is [now]. *)
Definition requestToken (now : Z) : Async value :=
  await this <- read_client;
  await _ <-
    (if refresh_due now this
     then
       await response <- dispatch (makeRequest this Get "authentication/token/new"
                                     VUndefined []);
       set_token response
     else ret tt);
  await this' <- read_client;
  ret (token this').

(** Reading a property of [null] or [undefined] throws. *)
Definition member (v : value) (k : str) : Async value :=
  match v with
  | VUndefined | VNull => throw (VStr "TypeError")
  | _ => ret (prop v k)
  end.

(** [async retrieveSession()]. *)
Definition retrieveSession (now : Z) : Async value :=
  await token <- requestToken now;
  await request_token <- member token "request_token";
  await this <- read_client;
  await res <- dispatch (makeRequest this Get "authentication/session/new"
                           (VObj [(lit "request_token", request_token)]) []);
  await session_id <- member res "session_id";
  await _ <- set_sessionId session_id;
  ret session_id.

End Auth.

(** ** Vocabulary of the properties *)

(** What [baseMerge] does with one property of the source. *)
Definition merge_step (object : obj) (key : str) (srcValue : value) : obj :=
  match srcValue with
  | VObj so =>
      assignMergeValue object key (VObj (merge (obj_or_empty (obj_get key object)) so))
  | _ => assignMergeValue object key srcValue
  end.

Definition str_eq_dec : forall a b : str, {a = b} + {a <> b} :=
  list_eq_dec ascii_dec.

(** The value [merge] leaves under a key the source assigns. *)
Definition merged_value (old : option value) (srcValue : value) : value :=
  match srcValue with
  | VUndefined => match old with Some x => x | None => VUndefined end
  | VObj so =>
      VObj (merge (obj_or_empty (match old with Some x => x | None => VUndefined end)) so)
  | _ => srcValue
  end.

(** [a] is a prefix of [b]. *)
Definition prefixb (a b : str) : bool :=
  match strip_prefix a b with Some _ => true | None => false end.

Definition has_char (c : ascii) (s : str) : bool := existsb (Ascii.eqb c) s.

(** A key that can disturb the text [:name] in a path: it contains a
    colon, is a prefix of [name], or begins with [name]. *)
Definition clashes (name key : str) : bool :=
  has_char ":" key || prefixb key name || prefixb name key.

(** An occurrence found in the rest of a text, reported in the whole. *)
Definition shift (x : str) (found : option (str * str)) : option (str * str) :=
  match found with
  | Some (before, after) => Some (x ++ before, after)
  | None => None
  end.

(** The names the pattern [/:[a-z]*/gi] finds in a template, one per
    colon, in order. *)
Definition names (s : str) : list str := map slice1 (scan_placeholders true s).

(** The number of colons of a template. *)
Definition colons (s : str) : nat := count_occ ascii_dec s ":"%char.

Definition is_letter (c : ascii) : bool := az true c.

(** The keys path substitution consumes: those whose text [:key] is
    found, and replaced, in the path under construction when their turn
    comes in [getEndpoint]. *)
Fixpoint consumed_from (compiled : str) (keys : list str) (params : obj) : list str :=
  match keys with
  | [] => []
  | key :: rest =>
      let next := replace_key params compiled key in
      if includes compiled (":"%char :: key)
      then key :: consumed_from next rest params
      else consumed_from next rest params
  end.

Definition consumed_keys (endpoint : str) (params : obj) : list str :=
  consumed_from endpoint (Object_keys params) params.

(** The keys the residual computation removes from the mapping. *)
Definition removed_keys (endpoint : str) (params : obj) : list str :=
  filter (fun k => negb (obj_has k (omit params (omittedProps endpoint))))
         (Object_keys params).

(** Every colon of the template starts the template or follows a
    character that is neither a letter nor a colon. *)
Fixpoint guarded_from (ok : bool) (s : str) : bool :=
  match s with
  | [] => true
  | c :: s' =>
      (if Ascii.eqb c ":" then ok else true)
      && guarded_from (negb (is_letter c || Ascii.eqb c ":")) s'
  end.

Definition guarded (s : str) : bool := guarded_from true s.

(** The flag [guarded_from] carries once it has read [s]. *)
Fixpoint state_after (ok : bool) (s : str) : bool :=
  match s with
  | [] => ok
  | c :: s' => state_after (negb (is_letter c || Ascii.eqb c ":")) s'
  end.

(** A key the two computations treat alike on a template.  A key made
    of letters is not a proper prefix of a placeholder name; the
    leading letters of any other key are not a placeholder name; and
    the value of a key that names a placeholder has neither a colon nor
    a dollar sign in its string form. *)
Definition plain_key (endpoint : str) (params : obj) (key : str) : bool :=
  (if forallb is_letter key
   then forallb (fun n => negb (prefixb key n) || str_eqb key n) (names endpoint)
   else negb (str_in (take_while is_letter key) (names endpoint)))
  && (negb (str_in key (names endpoint))
      || (negb (has_char ":" (ToString (obj_get key params)))
          && negb (has_char "$" (ToString (obj_get key params))))).

(** The normalizer as the specification words it: the placeholders are
    the matches of [:[a-z]+], and a scalar is bound when exactly one
    distinct placeholder exists. *)
Definition spec_placeholders (template : str) : list str :=
  nodup str_eq_dec
    (filter (fun n => match n with [] => false | _ => true end)
            (map slice1 (scan_placeholders false template))).

Definition spec_normalize (template : str) (rawParams : value) : obj :=
  match rawParams with
  | VObj o => o
  | scalar =>
      match spec_placeholders template with
      | [name] => [(name, scalar)]
      | _ => []
      end
  end.

(** The quotation mark, and the JSON text of [{ language: 'en' }]. *)
Definition dq : str := [ascii_of_nat 34].

Definition language_en_json : str :=
  lit "{" ++ dq ++ lit "language" ++ dq ++ lit ":" ++ dq ++ lit "en" ++ dq ++ lit "}".

(** A character the form-urlencoded serializer can put out for a name
    or a value: a letter, a digit, or one of [*-._+%]. *)
Definition urlencoded_char (c : ascii) : bool :=
  is_lower c || is_upper c || is_digit c || has_char c "*-._+%".


Definition is_NoParams (s : ParamShape) : bool :=
  match s with NoParams => true | _ => false end.


Definition is_SearchParams (s : ParamShape) : bool :=
  match s with SearchParams => true | _ => false end.

(** A service that issues a token, then a session id, and is offline
    afterwards; and a client that has sent nothing yet. *)
Definition demo_server (n : nat) (_ : Request) : outcome value :=
  match n with
  | 0 => Fulfilled (VObj [(lit "success", VBool true); (lit "expires_at", VStr "soon");
                          (lit "request_token", VStr "abc")])
  | 1 => Fulfilled (VObj [(lit "success", VBool true); (lit "session_id", VStr "xyz")])
  | _ => Rejected (VStr "offline")
  end.

Definition demo_world : World := {| client := new_MovieDb "KEY" None; sent := [] |}.

(** * Properties *)

(** ** Strings and objects *)

Lemma str_eqb_spec (a b : str) : reflect (a = b) (str_eqb a b).
Proof.
  revert b; induction a as [|x a IH]; intros [|y b]; simpl;
    try (constructor; congruence).
  destruct (Ascii.eqb_spec x y) as [->|Hxy]; simpl.
  - destruct (IH b) as [->|Hab]; constructor; congruence.
  - constructor; congruence.
Qed.

Lemma str_eqb_refl (a : str) : str_eqb a a = true.
Proof. destruct (str_eqb_spec a a); congruence. Qed.

Lemma str_eqb_neq (a b : str) : a <> b -> str_eqb a b = false.
Proof. destruct (str_eqb_spec a b); congruence. Qed.

Lemma str_in_In (k : str) (l : list str) : str_in k l = true <-> In k l.
Proof.
  unfold str_in. rewrite existsb_exists. split.
  - intros [x [Hx Hk]]. destruct (str_eqb_spec k x); congruence.
  - intros H. exists k. split; [assumption | apply str_eqb_refl].
Qed.

Lemma obj_lookup_update (k k' : str) (v : value) (o : obj) :
  obj_has k' o = true ->
  obj_lookup k (obj_update k' v o) = if str_eqb k k' then Some v else obj_lookup k o.
Proof.
  unfold obj_has. induction o as [|[k0 v0] o IH]; simpl; [discriminate|].
  destruct (str_eqb_spec k' k0) as [->|Hk0]; simpl.
  - intros _. destruct (str_eqb_spec k k0); reflexivity.
  - intros H. destruct (str_eqb_spec k k0) as [->|Hk].
    + rewrite str_eqb_neq by congruence. reflexivity.
    + apply IH, H.
Qed.

Lemma obj_lookup_add (k k' : str) (v : value) (o : obj) :
  obj_has k' o = false ->
  obj_lookup k (obj_add k' v o) = if str_eqb k k' then Some v else obj_lookup k o.
Proof.
  unfold obj_has. induction o as [|[k0 v0] o IH]; simpl.
  - intros _. destruct (str_eqb k k'); reflexivity.
  - destruct (str_eqb_spec k' k0) as [->|Hk0]; [discriminate|]. intros H.
    destruct (key_before k' k0); simpl.
    + destruct (str_eqb_spec k k'); reflexivity.
    + destruct (str_eqb_spec k k0) as [->|Hk].
      * rewrite str_eqb_neq by congruence. reflexivity.
      * apply IH, H.
Qed.

Lemma obj_lookup_set (k k' : str) (v : value) (o : obj) :
  obj_lookup k (obj_set k' v o) = if str_eqb k k' then Some v else obj_lookup k o.
Proof.
  unfold obj_set. destruct (obj_has k' o) eqn:H.
  - apply obj_lookup_update, H.
  - apply obj_lookup_add, H.
Qed.

Lemma obj_get_set_same (k : str) (v : value) (o : obj) : obj_get k (obj_set k v o) = v.
Proof. unfold obj_get. rewrite obj_lookup_set, str_eqb_refl. reflexivity. Qed.

Lemma obj_lookup_None_keys (k : str) (o : obj) :
  obj_lookup k o = None <-> ~ In k (Object_keys o).
Proof.
  induction o as [|[k0 v0] o IH]; simpl.
  - tauto.
  - destruct (str_eqb_spec k k0) as [->|Hk].
    + split; [discriminate | intros H; exfalso; apply H; left; reflexivity].
    + rewrite IH. split; [intros H [E|Hin]; [congruence | tauto] | tauto].
Qed.

Lemma obj_lookup_spread_other (k : str) (src dest : obj) :
  obj_has k src = false ->
  obj_lookup k (spread src dest) = obj_lookup k dest.
Proof.
  unfold spread, obj_has. revert dest.
  induction src as [|[k0 v0] src IH]; simpl; intros dest; [reflexivity|].
  destruct (str_eqb_spec k k0) as [->|Hk]; [discriminate|]. intros H.
  rewrite IH by exact H. rewrite obj_lookup_set, str_eqb_neq by exact Hk. reflexivity.
Qed.

Lemma obj_lookup_spread_in (k : str) (v : value) (src dest : obj) :
  NoDup (Object_keys src) ->
  obj_lookup k src = Some v ->
  obj_lookup k (spread src dest) = Some v.
Proof.
  unfold spread. revert dest.
  induction src as [|[k0 v0] src IH]; simpl; intros dest Hnd; [discriminate|].
  inversion Hnd as [|? ? Hnotin Hnd']; subst.
  destruct (str_eqb_spec k k0) as [->|Hk].
  - intros [= ->].
    change (obj_lookup k0 (spread src (obj_set k0 v dest)) = Some v).
    rewrite obj_lookup_spread_other.
    + rewrite obj_lookup_set, str_eqb_refl. reflexivity.
    + unfold obj_has. apply obj_lookup_None_keys in Hnotin. rewrite Hnotin. reflexivity.
  - intros H. apply IH; assumption.
Qed.

(** ** lodash [merge] *)

Lemma merge_cons (object : obj) (key : str) (srcValue : value) (rest : obj) :
  merge object ((key, srcValue) :: rest) = merge (merge_step object key srcValue) rest.
Proof. destruct srcValue; reflexivity. Qed.

Lemma obj_lookup_assignMergeValue_other (k key : str) (v : value) (object : obj) :
  k <> key -> obj_lookup k (assignMergeValue object key v) = obj_lookup k object.
Proof.
  intros H. unfold assignMergeValue.
  destruct v; try (rewrite obj_lookup_set, str_eqb_neq by exact H; reflexivity).
  destruct (obj_has key object); [reflexivity|].
  rewrite obj_lookup_set, str_eqb_neq by exact H. reflexivity.
Qed.

Lemma obj_lookup_merge_step_other (k key : str) (v : value) (object : obj) :
  k <> key -> obj_lookup k (merge_step object key v) = obj_lookup k object.
Proof.
  intros H. unfold merge_step. destruct v; apply obj_lookup_assignMergeValue_other, H.
Qed.

Lemma obj_lookup_merge_step_same (key : str) (v : value) (object : obj) :
  obj_lookup key (merge_step object key v) = Some (merged_value (obj_lookup key object) v).
Proof.
  unfold merge_step, merged_value, assignMergeValue, obj_get, obj_has.
  destruct v; try (rewrite obj_lookup_set, str_eqb_refl; reflexivity).
  destruct (obj_lookup key object) eqn:E; [exact E|].
  rewrite obj_lookup_set, str_eqb_refl. reflexivity.
Qed.

Lemma obj_lookup_merge_absent (k : str) (source object : obj) :
  ~ In k (Object_keys source) ->
  obj_lookup k (merge object source) = obj_lookup k object.
Proof.
  revert object. induction source as [|[k0 v0] source IH]; intros object Hk.
  - reflexivity.
  - rewrite merge_cons, IH.
    + apply obj_lookup_merge_step_other. intros ->. apply Hk. left. reflexivity.
    + intros Hin. apply Hk. right. exact Hin.
Qed.

Lemma obj_lookup_merge_present (k : str) (v : value) (source object : obj) :
  NoDup (Object_keys source) ->
  obj_lookup k source = Some v ->
  obj_lookup k (merge object source) = Some (merged_value (obj_lookup k object) v).
Proof.
  revert object. induction source as [|[k0 v0] source IH]; intros object Hnd; simpl.
  - discriminate.
  - inversion Hnd as [|? ? Hnotin Hnd']; subst.
    rewrite merge_cons. destruct (str_eqb_spec k k0) as [->|Hk].
    + intros [= ->]. rewrite obj_lookup_merge_absent by exact Hnotin.
      apply obj_lookup_merge_step_same.
    + intros H. rewrite (IH _ Hnd' H).
      rewrite obj_lookup_merge_step_other by exact Hk. reflexivity.
Qed.

(** A key the destination lacks is as true after the merge as it is in
    the source. *)
Lemma truthy_merge (k : str) (source object : obj) :
  NoDup (Object_keys source) ->
  obj_has k object = false ->
  truthy (obj_get k (merge object source)) = truthy (obj_get k source).
Proof.
  intros Hnd Hk. unfold obj_has in Hk. unfold obj_get.
  destruct (obj_lookup k object) eqn:Eo; [discriminate|].
  destruct (obj_lookup k source) as [v|] eqn:Es.
  - rewrite (obj_lookup_merge_present _ _ _ _ Hnd Es), Eo.
    destruct v; reflexivity.
  - rewrite obj_lookup_merge_absent, Eo; [reflexivity|].
    apply obj_lookup_None_keys, Es.
Qed.

(** ** [getParams] *)

Lemma default_params_no_id (this : MovieDb) : obj_has "id" (default_params this) = false.
Proof.
  unfold default_params. destruct (truthy (sessionId this)) eqn:E; [reflexivity|].
  destruct (sessionId this); try reflexivity. discriminate.
Qed.

Lemma getParams_inject (this : MovieDb) (endpoint : str) (params : obj) :
  NoDup (Object_keys params) ->
  includes endpoint ":id" = true ->
  truthy (sessionId this) = true ->
  truthy (obj_get "id" params) = false ->
  getParams this endpoint params
  = obj_set "id" (VStr "{account_id}") (merge (default_params this) params).
Proof.
  intros Hnd Hinc Hs Hid. unfold getParams.
  rewrite (truthy_merge _ _ _ Hnd (default_params_no_id this)), Hinc, Hs, Hid.
  reflexivity.
Qed.

Lemma getParams_keep (this : MovieDb) (endpoint : str) (params : obj) :
  NoDup (Object_keys params) ->
  truthy (sessionId this) = false \/ truthy (obj_get "id" params) = true ->
  getParams this endpoint params = merge (default_params this) params.
Proof.
  intros Hnd H. unfold getParams.
  rewrite (truthy_merge _ _ _ Hnd (default_params_no_id this)).
  destruct H as [H|H]; rewrite H.
  - rewrite andb_false_r. reflexivity.
  - simpl. rewrite andb_false_r. reflexivity.
Qed.

(** ** Placeholder scanning *)

Lemma or_empty_match (ignoreCase : bool) (s : str) :
  or_empty (match_placeholders ignoreCase s) = scan_placeholders ignoreCase s.
Proof. unfold match_placeholders. destruct (scan_placeholders ignoreCase s); reflexivity. Qed.

Lemma colons_0_notin (s : str) : colons s = 0 <-> ~ In ":"%char s.
Proof. unfold colons. symmetry. apply count_occ_not_In. Qed.

Lemma scan_length (ignoreCase : bool) (s : str) :
  List.length (scan_placeholders ignoreCase s) = colons s.
Proof.
  unfold colons. induction s as [|c s IH]; simpl; [reflexivity|].
  destruct (Ascii.eqb_spec c ":"%char) as [->|Hc].
  - destruct (ascii_dec ":" ":"); [simpl; congruence | congruence].
  - destruct (ascii_dec c ":"); [congruence | exact IH].
Qed.

Lemma scan_no_colon (ignoreCase : bool) (s : str) :
  colons s = 0 -> scan_placeholders ignoreCase s = [].
Proof.
  intros H. apply length_zero_iff_nil. rewrite scan_length. exact H.
Qed.

Lemma scan_skip (ignoreCase : bool) (a b : str) :
  colons a = 0 -> scan_placeholders ignoreCase (a ++ b) = scan_placeholders ignoreCase b.
Proof.
  rewrite colons_0_notin. induction a as [|c a IH]; simpl; intros H; [reflexivity|].
  destruct (Ascii.eqb_spec c ":"%char) as [->|Hc]; [exfalso; apply H; left; reflexivity|].
  apply IH. intros Hin. apply H. right. exact Hin.
Qed.

(** ** Keys of the merged mapping *)

Lemma In_keys_lookup (k : str) (o : obj) :
  In k (Object_keys o) <-> obj_lookup k o <> None.
Proof.
  split.
  - intros Hin E. apply obj_lookup_None_keys in E. contradiction.
  - intros H. destruct (in_dec str_eq_dec k (Object_keys o)) as [Hin|Hout]; [exact Hin|].
    apply obj_lookup_None_keys in Hout. contradiction.
Qed.

Lemma keys_obj_set (k k' : str) (v : value) (o : obj) :
  In k (Object_keys (obj_set k' v o)) -> k = k' \/ In k (Object_keys o).
Proof.
  rewrite !In_keys_lookup, obj_lookup_set.
  destruct (str_eqb_spec k k'); [left; assumption | right; assumption].
Qed.

Lemma keys_merge (k : str) (object source : obj) :
  In k (Object_keys (merge object source)) ->
  In k (Object_keys object) \/ In k (Object_keys source).
Proof.
  destruct (in_dec str_eq_dec k (Object_keys source)) as [Hin|Hout]; [right; exact Hin|].
  rewrite !In_keys_lookup, obj_lookup_merge_absent by exact Hout. left. assumption.
Qed.

Lemma keys_default_params (this : MovieDb) (k : str) :
  In k (Object_keys (default_params this)) -> k = lit "api_key" \/ k = lit "session_id".
Proof.
  unfold default_params. destruct (truthy (sessionId this)) eqn:E.
  - vm_compute. intuition.
  - destruct (sessionId this); try discriminate; vm_compute; intuition.
Qed.

Lemma keys_getParams (this : MovieDb) (endpoint : str) (params : obj) (k : str) :
  In k (Object_keys (getParams this endpoint params)) ->
  k = lit "id" \/ k = lit "api_key" \/ k = lit "session_id" \/ In k (Object_keys params).
Proof.
  unfold getParams.
  destruct (includes endpoint ":id" && _ && _); intros H.
  - apply keys_obj_set in H. destruct H as [H|H]; [left; exact H|].
    apply keys_merge in H. destruct H as [H|H]; [|tauto].
    apply keys_default_params in H. tauto.
  - apply keys_merge in H. destruct H as [H|H]; [|tauto].
    apply keys_default_params in H. tauto.
Qed.

(** ** Searching a text *)

Lemma strip_prefix_Some (p s r : str) : strip_prefix p s = Some r <-> s = p ++ r.
Proof.
  revert s. induction p as [|a p IH]; intros s; simpl.
  - split; congruence.
  - destruct s as [|b s]; [split; discriminate|].
    destruct (Ascii.eqb_spec a b) as [->|Hab].
    + rewrite IH. split; congruence.
    + split; [discriminate | congruence].
Qed.

Lemma strip_prefix_app (p r : str) : strip_prefix p (p ++ r) = Some r.
Proof. apply strip_prefix_Some. reflexivity. Qed.

Lemma split_at_first_cons (p : str) (c : ascii) (s : str) :
  split_at_first p (c :: s)
  = match strip_prefix p (c :: s) with
    | Some rest => Some ([], rest)
    | None => shift [c] (split_at_first p s)
    end.
Proof.
  simpl. destruct p as [|a p]; [reflexivity|].
  destruct (Ascii.eqb a c); [destruct (strip_prefix p s)|];
    try reflexivity; destruct (split_at_first (a :: p) s) as [[b t]|]; reflexivity.
Qed.

Lemma split_at_first_sound (p s before after : str) :
  split_at_first p s = Some (before, after) -> s = before ++ p ++ after.
Proof.
  revert before. induction s as [|c s IH]; intros before.
  - simpl. destruct (strip_prefix p []) eqn:E; [|discriminate].
    intros [= <- <-]. apply strip_prefix_Some in E. exact E.
  - rewrite split_at_first_cons. destruct (strip_prefix p (c :: s)) eqn:E.
    + intros [= <- <-]. apply strip_prefix_Some in E. exact E.
    + destruct (split_at_first p s) as [[b t]|]; [|discriminate].
      simpl. intros [= <- <-]. rewrite (IH b eq_refl). reflexivity.
Qed.

Lemma shift_shift (x y : str) (found : option (str * str)) :
  shift x (shift y found) = shift (x ++ y) found.
Proof. destruct found as [[b t]|]; simpl; [rewrite app_assoc|]; reflexivity. Qed.

Lemma shift_nil (found : option (str * str)) : shift [] found = found.
Proof. destruct found as [[b t]|]; reflexivity. Qed.

(** A text without the first character of the pattern is skipped. *)
Lemma split_at_first_skip (p0 : ascii) (k x y : str) :
  ~ In p0 x ->
  split_at_first (p0 :: k) (x ++ y) = shift x (split_at_first (p0 :: k) y).
Proof.
  induction x as [|c x IH]; intros Hx.
  - rewrite shift_nil. reflexivity.
  - change ((c :: x) ++ y) with (c :: (x ++ y)). rewrite split_at_first_cons.
    simpl strip_prefix. destruct (Ascii.eqb_spec p0 c) as [->|Hc].
    + exfalso. apply Hx. left. reflexivity.
    + rewrite IH by (intros Hin; apply Hx; right; exact Hin).
      rewrite shift_shift. reflexivity.
Qed.

(** An occurrence that begins in [x] and is not inside [x] takes the
    first character of what follows from the pattern. *)
Lemma strip_prefix_straddle (q x : str) (y0 : ascii) (y r : str) :
  strip_prefix q (x ++ y0 :: y) = Some r ->
  strip_prefix q x = None ->
  In y0 (skipn (List.length x) q).
Proof.
  revert x. induction q as [|a q IH]; intros x; simpl.
  - destruct x; discriminate.
  - destruct x as [|c x]; simpl.
    + destruct (Ascii.eqb_spec a y0) as [->|]; [left; reflexivity | discriminate].
    + destruct (Ascii.eqb a c); [apply IH | discriminate].
Qed.

Lemma In_skipn_whole {A : Type} (a : A) (n : nat) (l : list A) : In a (skipn n l) -> In a l.
Proof.
  intros H. rewrite <- (firstn_skipn n l). apply in_or_app. right. exact H.
Qed.


Lemma strip_prefix_app_found (p x y r : str) :
  strip_prefix p x = Some r -> strip_prefix p (x ++ y) = Some (r ++ y).
Proof.
  rewrite !strip_prefix_Some. intros ->. rewrite app_assoc. reflexivity.
Qed.

Lemma strip_prefix_app_None (p x y : str) :
  strip_prefix p x = None -> List.length p <= List.length x ->
  strip_prefix p (x ++ y) = None.
Proof.
  revert x. induction p as [|a p IH]; intros x; simpl.
  - discriminate.
  - destruct x as [|c x]; simpl; [lia|].
    destruct (Ascii.eqb a c); [|reflexivity].
    intros H Hlen. apply IH; [exact H | lia].
Qed.

Lemma split_at_first_app_found (p x y before after : str) :
  split_at_first p x = Some (before, after) ->
  split_at_first p (x ++ y) = Some (before, after ++ y).
Proof.
  revert before. induction x as [|c x IH]; intros before.
  - simpl. destruct (strip_prefix p []) eqn:E; [|discriminate].
    intros [= <- <-]. apply strip_prefix_Some in E.
    destruct p; [|discriminate]. simpl in E. subst s.
    destruct y; reflexivity.
  - change ((c :: x) ++ y) with (c :: (x ++ y)). rewrite !split_at_first_cons.
    destruct (strip_prefix p (c :: x)) eqn:E.
    + intros [= <- <-].
      change (c :: x ++ y) with ((c :: x) ++ y).
      rewrite (strip_prefix_app_found _ _ y _ E). reflexivity.
    + destruct (split_at_first p x) as [[b t]|] eqn:Ex; [|discriminate].
      simpl. intros [= <- <-].
      change (c :: x ++ y) with ((c :: x) ++ y).
      rewrite strip_prefix_app_None; [rewrite (IH b eq_refl); reflexivity | exact E |].
      apply split_at_first_sound in Ex. subst x. simpl. rewrite !length_app. lia.
Qed.

(** With no occurrence in [x], and none that runs from [x] into what
    follows, the search goes on after [x]. *)
Lemma split_at_first_app_later (p0 y0 : ascii) (k x y : str) :
  ~ In y0 k ->
  split_at_first (p0 :: k) x = None ->
  split_at_first (p0 :: k) (x ++ y0 :: y)
  = shift x (split_at_first (p0 :: k) (y0 :: y)).
Proof.
  intros Hy. induction x as [|c x IH].
  - intros _. rewrite shift_nil. reflexivity.
  - rewrite split_at_first_cons. destruct (strip_prefix (p0 :: k) (c :: x)) eqn:E; [discriminate|].
    destruct (split_at_first (p0 :: k) x) as [[b t]|] eqn:Ex; [discriminate|].
    intros _. change ((c :: x) ++ y0 :: y) with (c :: (x ++ y0 :: y)).
    rewrite split_at_first_cons.
    destruct (strip_prefix (p0 :: k) (c :: x ++ y0 :: y)) eqn:E'.
    + exfalso. apply Hy.
      change (c :: x ++ y0 :: y) with ((c :: x) ++ y0 :: y) in E'.
      pose proof (strip_prefix_straddle _ _ _ _ _ E' E) as Hin.
      simpl in Hin. eapply In_skipn_whole. exact Hin.
    + rewrite IH by reflexivity. rewrite shift_shift. reflexivity.
Qed.

Lemma has_char_false (c : ascii) (s : str) : has_char c s = false <-> ~ In c s.
Proof.
  unfold has_char. split.
  - intros H Hin. assert (E : existsb (Ascii.eqb c) s = true).
    { apply existsb_exists. exists c. split; [exact Hin | apply Ascii.eqb_refl]. }
    congruence.
  - intros H. destruct (existsb (Ascii.eqb c) s) eqn:E; [|reflexivity].
    apply existsb_exists in E. destruct E as [x [Hin Hx]].
    apply Ascii.eqb_eq in Hx. subst x. contradiction.
Qed.

Lemma strip_prefix_comparable (k m t r : str) :
  strip_prefix k (m ++ t) = Some r -> prefixb k m = true \/ prefixb m k = true.
Proof.
  unfold prefixb. revert m. induction k as [|a k IH]; intros m; simpl.
  - left. reflexivity.
  - destruct m as [|c m]; simpl; [right; reflexivity|].
    destruct (Ascii.eqb_spec a c) as [->|]; [|discriminate].
    rewrite Ascii.eqb_refl. apply IH.
Qed.

(** A segment [m0 :: m] of a text that no occurrence of [:k] can touch:
    the search for [:k] finds what it finds before the segment or after
    it. *)
Lemma split_at_first_around (k pre m post : str) (m0 : ascii) :
  ~ In m0 k ->
  ~ In ":"%char m ->
  (m0 = ":"%char -> prefixb k m = false /\ prefixb m k = false) ->
  split_at_first (":"%char :: k) (pre ++ m0 :: m ++ post)
  = match split_at_first (":"%char :: k) pre with
    | Some (before, after) => Some (before, after ++ m0 :: m ++ post)
    | None => shift (pre ++ m0 :: m) (split_at_first (":"%char :: k) post)
    end.
Proof.
  intros Hm0 Hm Hcmp.
  destruct (split_at_first (":"%char :: k) pre) as [[b t]|] eqn:E.
  - apply split_at_first_app_found, E.
  - rewrite (split_at_first_app_later _ _ _ _ _ Hm0 E).
    rewrite split_at_first_cons.
    assert (Hhead : strip_prefix (":"%char :: k) (m0 :: m ++ post) = None).
    { cbn [strip_prefix]. destruct (Ascii.eqb_spec ":"%char m0) as [<-|]; [|reflexivity].
      destruct (strip_prefix k (m ++ post)) eqn:Ek; [|reflexivity].
      destruct (Hcmp eq_refl) as [H1 H2].
      destruct (strip_prefix_comparable _ _ _ _ Ek); congruence. }
    rewrite Hhead, (split_at_first_skip _ _ _ _ Hm), !shift_shift.
    rewrite <- app_assoc. reflexivity.
Qed.

Lemma replace_keeps_segment (k r pre m post : str) (m0 : ascii) :
  ~ In m0 k ->
  ~ In ":"%char m ->
  (m0 = ":"%char -> prefixb k m = false /\ prefixb m k = false) ->
  exists pre' post',
    replace (pre ++ m0 :: m ++ post) (":"%char :: k) r = pre' ++ m0 :: m ++ post'.
Proof.
  intros Hm0 Hm Hcmp. unfold replace.
  rewrite (split_at_first_around _ _ _ _ _ Hm0 Hm Hcmp).
  destruct (split_at_first (":"%char :: k) pre) as [[b t]|].
  - eexists. exists post. rewrite !app_assoc. reflexivity.
  - destruct (split_at_first (":"%char :: k) post) as [[b t]|]; simpl.
    + exists pre. eexists. rewrite <- !app_assoc. simpl. reflexivity.
    + exists pre, post. reflexivity.
Qed.

Lemma getEndpoint_keeps_segment (params : obj) (m : str) (m0 : ascii) (keys : list str) :
  ~ In ":"%char m ->
  (forall k, In k keys ->
             ~ In m0 k /\ (m0 = ":"%char -> prefixb k m = false /\ prefixb m k = false)) ->
  forall pre post, exists pre' post',
    fold_left (replace_key params) keys (pre ++ m0 :: m ++ post)
    = pre' ++ m0 :: m ++ post'.
Proof.
  intros Hm. induction keys as [|key keys IH]; intros Hkeys pre post.
  - exists pre, post. reflexivity.
  - cbn [fold_left]. unfold replace_key at 2.
    destruct (Hkeys key (or_introl eq_refl)) as [H0 Hcmp].
    destruct (replace_keeps_segment key (ToString (obj_get key params)) pre m post m0
                H0 Hm Hcmp) as [pre1 [post1 E]].
    rewrite E.
    apply IH. intros k Hk. apply Hkeys. right. exact Hk.
Qed.

Lemma split_at_first_complete (p x y : str) :
  exists before after, split_at_first p (x ++ p ++ y) = Some (before, after).
Proof.
  induction x as [|c x IH].
  - exists [], y. simpl app. pose proof (strip_prefix_app p y) as E.
    destruct (p ++ y); simpl; rewrite E; reflexivity.
  - change ((c :: x) ++ p ++ y) with (c :: (x ++ p ++ y)). rewrite split_at_first_cons.
    destruct (strip_prefix p (c :: x ++ p ++ y)); [eexists; eexists; reflexivity|].
    destruct IH as [b [t ->]]. eexists; eexists; reflexivity.
Qed.

Lemma includes_app (p x y : str) : includes (x ++ p ++ y) p = true.
Proof.
  unfold includes. destruct (split_at_first_complete p x y) as [b [t ->]]. reflexivity.
Qed.

Lemma includes_split (s p : str) :
  includes s p = true -> exists before after, s = before ++ p ++ after.
Proof.
  unfold includes. destruct (split_at_first p s) as [[b t]|] eqn:E; [|discriminate].
  intros _. exists b, t. apply split_at_first_sound, E.
Qed.

Lemma in_split_first (k : str) (l : list str) :
  In k l -> exists l1 l2, l = l1 ++ k :: l2 /\ ~ In k l1.
Proof.
  induction l as [|x l IH]; [contradiction|].
  destruct (str_eq_dec x k) as [->|Hx].
  - intros _. exists [], l. split; [reflexivity | intros []].
  - intros [E|Hin]; [contradiction|].
    destruct (IH Hin) as [l1 [l2 [-> Hl1]]].
    exists (x :: l1), l2. split; [reflexivity|].
    intros [E|H]; [contradiction | exact (Hl1 H)].
Qed.

(** ** Placeholder names *)

Lemma names_cons (c : ascii) (s : str) :
  names (c :: s)
  = if Ascii.eqb c ":" then take_while is_letter s :: names s else names s.
Proof. unfold names. simpl. destruct (Ascii.eqb c ":"); reflexivity. Qed.

Lemma names_skip (v x : str) : ~ In ":"%char v -> names (v ++ x) = names x.
Proof.
  intros H. unfold names. rewrite scan_skip; [reflexivity|]. apply colons_0_notin, H.
Qed.

Lemma take_while_all (f : ascii -> bool) (s : str) : forallb f (take_while f s) = true.
Proof.
  induction s as [|c s IH]; simpl; [reflexivity|].
  destruct (f c) eqn:E; simpl; [rewrite E, IH|]; reflexivity.
Qed.

Lemma take_while_split (f : ascii -> bool) (s : str) : exists r, s = take_while f s ++ r.
Proof.
  induction s as [|c s [r IH]]; simpl; [exists []; reflexivity|].
  destruct (f c); [exists r; simpl; congruence | exists (c :: s); reflexivity].
Qed.

Lemma take_while_app_all (f : ascii -> bool) (k a : str) :
  forallb f k = true -> take_while f (k ++ a) = k ++ take_while f a.
Proof.
  induction k as [|c k IH]; simpl; [reflexivity|].
  intros H. apply andb_prop in H. destruct H as [Hc Hk]. rewrite Hc, IH by exact Hk.
  reflexivity.
Qed.

Lemma take_while_app_stop (f : ascii -> bool) (k a : str) :
  forallb f k = false -> take_while f (k ++ a) = take_while f k.
Proof.
  induction k as [|c k IH]; simpl; [discriminate|].
  destruct (f c); simpl; [intros H; rewrite IH by exact H|]; reflexivity.
Qed.

Lemma letters_no_colon (k : str) : forallb is_letter k = true -> ~ In ":"%char k.
Proof.
  intros H Hin. rewrite forallb_forall in H. specialize (H _ Hin). discriminate.
Qed.

Lemma names_at (b rest : str) : In (take_while is_letter rest) (names (b ++ ":"%char :: rest)).
Proof.
  induction b as [|c b IH]; simpl app.
  - rewrite names_cons. left. reflexivity.
  - rewrite names_cons. destruct (Ascii.eqb c ":"); [right|]; exact IH.
Qed.

Lemma prefixb_app (k r : str) : prefixb k (k ++ r) = true.
Proof. unfold prefixb. rewrite strip_prefix_app. reflexivity. Qed.

Lemma includes_cons (p : str) (c : ascii) (s : str) :
  includes s p = true -> includes (c :: s) p = true.
Proof.
  unfold includes. rewrite split_at_first_cons.
  destruct (strip_prefix p (c :: s)); [reflexivity|].
  destruct (split_at_first p s) as [[b t]|]; [reflexivity | discriminate].
Qed.

Lemma includes_name (k s : str) : In k (names s) -> includes s (":"%char :: k) = true.
Proof.
  induction s as [|c s IH]; [intros []|].
  rewrite names_cons. destruct (Ascii.eqb_spec c ":"%char) as [->|Hc].
  - intros [<-|H]; [|apply includes_cons, IH, H].
    destruct (take_while_split is_letter s) as [r E].
    unfold includes. rewrite split_at_first_cons. cbn [strip_prefix].
    rewrite Ascii.eqb_refl. rewrite E at 2. rewrite strip_prefix_app. reflexivity.
  - intros H. apply includes_cons, IH, H.
Qed.

Lemma GetSubstitution_plain (matched before after v : str) :
  has_char "$" v = false -> GetSubstitution matched before after v = v.
Proof.
  induction v as [|c v IH]; [reflexivity|].
  unfold has_char. cbn [existsb GetSubstitution]. rewrite Ascii.eqb_sym.
  destruct (Ascii.eqb c "$"); [discriminate|]. cbn [orb].
  intros H. rewrite IH by exact H. reflexivity.
Qed.

(** ** Guarded colons *)

Lemma guarded_from_app (ok : bool) (x y : str) :
  guarded_from ok (x ++ y) = guarded_from ok x && guarded_from (state_after ok x) y.
Proof.
  revert ok. induction x as [|c x IH]; intros ok; simpl; [reflexivity|].
  rewrite IH, andb_assoc. reflexivity.
Qed.

Lemma guarded_from_weaken (ok : bool) (s : str) :
  guarded_from false s = true -> guarded_from ok s = true.
Proof.
  destruct s as [|c s]; [reflexivity|]. simpl.
  destruct (Ascii.eqb c ":"); [discriminate | trivial].
Qed.

Lemma guarded_from_no_colon (ok : bool) (v : str) :
  ~ In ":"%char v -> guarded_from ok v = true.
Proof.
  revert ok. induction v as [|c v IH]; intros ok H; [reflexivity|]. simpl.
  destruct (Ascii.eqb_spec c ":"%char) as [->|Hc]; [exfalso; apply H; left; reflexivity|].
  apply IH. intros Hin. apply H. right. exact Hin.
Qed.

Lemma state_after_letters (k : str) :
  forallb is_letter k = true -> state_after false k = false.
Proof.
  assert (G : forall ok, forallb is_letter k = true -> k <> [] -> state_after ok k = false).
  { induction k as [|c k IH]; intros ok H Hne; [congruence|]. simpl in *.
    apply andb_prop in H. destruct H as [Hc Hk]. rewrite Hc. simpl.
    destruct k as [|c' k']; [reflexivity|]. apply IH; [exact Hk | discriminate]. }
  intros H. destruct k as [|c k]; [reflexivity|]. apply G; [exact H | discriminate].
Qed.

Lemma take_while_closed (ok : bool) (b x : str) :
  b <> [] -> state_after ok b = true ->
  take_while is_letter (b ++ x) = take_while is_letter b.
Proof.
  revert ok. induction b as [|c b IH]; intros ok Hne H; [congruence|].
  cbn [state_after] in H. cbn [app take_while].
  destruct (is_letter c) eqn:Ec; [|reflexivity].
  destruct b as [|c' b']; [discriminate H|].
  f_equal. apply (IH _ ltac:(discriminate) H).
Qed.

Lemma names_app_closed (b x : str) :
  state_after true b = true -> names (b ++ x) = names b ++ names x.
Proof.
  induction b as [|c b IH]; intros H; [reflexivity|].
  change ((c :: b) ++ x) with (c :: (b ++ x)). rewrite !names_cons.
  assert (Hb : state_after true b = true).
  { destruct b as [|c' b']; [reflexivity | exact H]. }
  rewrite (IH Hb). destruct (Ascii.eqb_spec c ":"%char) as [->|Hc]; [|reflexivity].
  destruct b as [|c' b']; [discriminate H|].
  rewrite (take_while_closed true (c' :: b') x ltac:(discriminate) Hb). reflexivity.
Qed.

(** ** Consumed and removed keys *)

Lemma obj_lookup_omit (k : str) (o : obj) (paths : list str) :
  obj_lookup k (omit o paths) = if str_in k paths then None else obj_lookup k o.
Proof.
  unfold omit. induction o as [|[k0 v0] o IH]; simpl.
  - destruct (str_in k paths); reflexivity.
  - destruct (str_in k0 paths) eqn:E0; simpl.
    + rewrite IH. destruct (str_eqb_spec k k0) as [->|]; [rewrite E0|]; reflexivity.
    + rewrite IH. destruct (str_eqb_spec k k0) as [->|]; [rewrite E0|]; reflexivity.
Qed.

Lemma omittedProps_names (endpoint : str) : omittedProps endpoint = names endpoint.
Proof. unfold omittedProps, names. rewrite or_empty_match. reflexivity. Qed.

Lemma removed_keys_filter (endpoint : str) (params : obj) :
  removed_keys endpoint params
  = filter (fun k => str_in k (names endpoint)) (Object_keys params).
Proof.
  unfold removed_keys. apply filter_ext_in. intros k Hk.
  unfold obj_has. rewrite obj_lookup_omit, omittedProps_names.
  destruct (str_in k (names endpoint)); [reflexivity|].
  apply In_keys_lookup in Hk. destruct (obj_lookup k params); [reflexivity | congruence].
Qed.

(** Replacing a whole placeholder by a text without colon. *)
Lemma replace_placeholder (s key v b a : str) :
  guarded s = true ->
  split_at_first (":"%char :: key) s = Some (b, a) ->
  forallb is_letter key = true ->
  take_while is_letter (key ++ a) = key ->
  has_char ":" v = false ->
  has_char "$" v = false ->
  replace s (":"%char :: key) v = b ++ v ++ a
  /\ names s = names b ++ key :: names a
  /\ names (b ++ v ++ a) = names b ++ names a
  /\ guarded (b ++ v ++ a) = true.
Proof.
  intros Hg E Hkey Hrun Hv1 Hv2.
  pose proof (split_at_first_sound _ _ _ _ E) as Es.
  apply has_char_false in Hv1.
  unfold guarded in *. rewrite Es in Hg.
  rewrite guarded_from_app in Hg. apply andb_prop in Hg. destruct Hg as [Hgb Hg].
  change ((":"%char :: key) ++ a) with (":"%char :: (key ++ a)) in Hg.
  cbn [guarded_from] in Hg. rewrite Ascii.eqb_refl in Hg.
  apply andb_prop in Hg. destruct Hg as [Hst Hg].
  change (negb (is_letter ":" || true)) with false in Hg.
  rewrite guarded_from_app in Hg. apply andb_prop in Hg. destruct Hg as [_ Hga].
  rewrite (state_after_letters _ Hkey) in Hga.
  repeat split.
  - unfold replace. rewrite E, (GetSubstitution_plain _ _ _ _ Hv2). reflexivity.
  - rewrite Es, (names_app_closed _ _ Hst).
    change ((":"%char :: key) ++ a) with (":"%char :: (key ++ a)).
    rewrite names_cons, Ascii.eqb_refl, Hrun.
    rewrite (names_skip _ _ (letters_no_colon _ Hkey)). reflexivity.
  - rewrite (names_app_closed _ _ Hst), (names_skip _ _ Hv1). reflexivity.
  - rewrite guarded_from_app, Hgb, guarded_from_app.
    rewrite (guarded_from_no_colon _ _ Hv1). apply guarded_from_weaken, Hga.
Qed.

Lemma consumed_from_filter (endpoint : str) (params : obj) (keys : list str) :
  forall s,
    NoDup keys ->
    forallb (plain_key endpoint params) keys = true ->
    guarded s = true ->
    incl (names s) (names endpoint) ->
    (forall k, In k keys -> In k (names endpoint) -> In k (names s)) ->
    consumed_from s keys params = filter (fun k => str_in k (names endpoint)) keys.
Proof.
  induction keys as [|key keys IH]; intros s Hnd Hplain Hg Hincl Hleft; [reflexivity|].
  inversion Hnd as [|? ? Hnotin Hnd']; subst.
  cbn [forallb] in Hplain. apply andb_prop in Hplain. destruct Hplain as [Hkey Hplain].
  unfold plain_key in Hkey. apply andb_prop in Hkey. destruct Hkey as [Hshape Hvalue].
  cbn [consumed_from filter]. unfold replace_key, includes.
  assert (Hrest : forall k, In k keys -> In k (names endpoint) -> In k (names s)).
  { intros k Hk. apply Hleft. right. exact Hk. }
  destruct (split_at_first (":"%char :: key) s) as [[b a]|] eqn:E.
  - (* the text [:key] is found *)
    pose proof (split_at_first_sound _ _ _ _ E) as Es.
    pose proof (names_at b (key ++ a)) as Hn0.
    change (b ++ ":"%char :: key ++ a) with (b ++ (":"%char :: key) ++ a) in Hn0.
    rewrite <- Es in Hn0.
    destruct (forallb is_letter key) eqn:Hletters.
    + rewrite (take_while_app_all _ _ a Hletters) in Hn0.
      assert (Erun : key ++ take_while is_letter a = key).
      { symmetry. rewrite forallb_forall in Hshape.
        specialize (Hshape _ (Hincl _ Hn0)). rewrite prefixb_app in Hshape.
        cbn [negb orb] in Hshape. destruct (str_eqb_spec key (key ++ take_while is_letter a));
          [assumption | discriminate]. }
      rewrite Erun in Hn0.
      assert (Hin : str_in key (names endpoint) = true) by (apply str_in_In, Hincl, Hn0).
      rewrite Hin in *. cbn [negb orb] in Hvalue.
      apply andb_prop in Hvalue. destruct Hvalue as [Hv1 Hv2].
      rewrite negb_true_iff in Hv1, Hv2.
      destruct (replace_placeholder s key (ToString (obj_get key params)) b a Hg E Hletters)
        as [Er [En [En' Hg']]]; try assumption.
      { rewrite take_while_app_all by exact Hletters. exact Erun. }
      rewrite Er. f_equal. apply IH; try assumption.
      * rewrite En'. intros n Hn. apply Hincl. rewrite En.
        apply in_app_or in Hn. apply in_or_app.
        destruct Hn as [Hn|Hn]; [left | right; right]; exact Hn.
      * intros k Hk Hke. specialize (Hrest k Hk Hke). rewrite En in Hrest. rewrite En'.
        apply in_app_or in Hrest. apply in_or_app.
        destruct Hrest as [H|[H|H]]; [left; exact H | | right; exact H].
        subst k. contradiction.
    + exfalso. rewrite (take_while_app_stop _ _ a Hletters) in Hn0.
      rewrite negb_true_iff in Hshape.
      assert (Hin : str_in (take_while is_letter key) (names endpoint) = true)
        by (apply str_in_In, Hincl, Hn0).
      congruence.
  - (* the text [:key] is not found *)
    unfold replace. rewrite E.
    assert (Hout : str_in key (names endpoint) = false).
    { destruct (str_in key (names endpoint)) eqn:Hin; [|reflexivity].
      apply str_in_In in Hin.
      pose proof (includes_name _ _ (Hleft key (or_introl eq_refl) Hin)) as Hinc.
      unfold includes in Hinc. rewrite E in Hinc. discriminate. }
    rewrite Hout. apply IH; assumption.
Qed.

(** ** The claims *)

(** C1 (code defect).  For the template [tv/:id/season/:season_number]
    and the parameters [{id: 42, season_number: 3}] the compiled path
    is [tv/42/season/3] and the residual mapping has no [id], but it
    still has [season_number]: the pattern of [omittedProps] stops at
    the underscore and names the placeholder [season]. *)
Theorem season_number_stays_in_residual :
  let this := new_MovieDb "KEY" None in
  let endpoint : str := "tv/:id/season/:season_number" in
  let params := VObj [(lit "id", VNum 42); (lit "season_number", VNum 3)] in
  getEndpoint endpoint (fullQuery this endpoint params) = "tv/42/season/3"
  /\ omittedProps endpoint = [lit "id"; lit "season"]
  /\ obj_has "id" (query this endpoint params) = false
  /\ obj_get "season_number" (query this endpoint params) = VNum 3
  /\ url (makeRequest this Get endpoint params [])
     = "https://api.themoviedb.org/3/tv/42/season/3?api_key=KEY&season_number=3".
Proof. vm_compute. repeat split; reflexivity. Qed.

(** C2, as the claim states it, fails: on the template [movie/:id] the
    key [i] is consumed by path substitution, which leaves [movie/7d],
    and it is not removed from the mapping. *)
Lemma prefix_key_consumed_not_removed :
  consumed_keys "movie/:id" [(lit "i", VNum 7)] = [lit "i"]
  /\ removed_keys "movie/:id" [(lit "i", VNum 7)] = []
  /\ getEndpoint "movie/:id" [(lit "i", VNum 7)] = "movie/7d"
  /\ omit [(lit "i", VNum 7)] (omittedProps "movie/:id") = [(lit "i", VNum 7)].
Proof. vm_compute. repeat split; reflexivity. Qed.

(** C2 (amended).  On a template whose colons each start the template
    or follow a character that is neither a letter nor a colon, and a
    mapping in which no key made of letters is a proper prefix of a
    placeholder name, the leading letters of no other key are a
    placeholder name, and the value of a key that names a placeholder
    has neither a colon nor a dollar sign in its string form, the keys
    path substitution consumes are the keys the residual computation
    removes. *)
Theorem consumed_keys_are_removed_keys (endpoint : str) (params : obj) :
  NoDup (Object_keys params) ->
  guarded endpoint = true ->
  forallb (plain_key endpoint params) (Object_keys params) = true ->
  consumed_keys endpoint params = removed_keys endpoint params.
Proof.
  intros Hnd Hg Hplain. rewrite removed_keys_filter. unfold consumed_keys.
  apply consumed_from_filter; try assumption.
  - apply incl_refl.
  - trivial.
Qed.

Lemma consumed_keys_are_removed_keys_witness :
  let params := fullQuery (new_MovieDb "KEY" None) "movie/:id/reviews"
                  (VObj [(lit "id", VNum 550); (lit "page", VNum 2)]) in
  consumed_keys "movie/:id/reviews" params = removed_keys "movie/:id/reviews" params.
Proof.
  intros params.
  apply (consumed_keys_are_removed_keys "movie/:id/reviews" params); [|reflexivity|reflexivity].
  vm_compute. repeat constructor; simpl; intuition discriminate.
Defined.

(** C3, as the claim states it, fails: a template that repeats its one
    placeholder has exactly one distinct placeholder, and a scalar is
    normalized to the empty mapping all the same. *)
Lemma normalizeParams_repeated_placeholder :
  spec_placeholders "tv/:id/similar/:id" = [lit "id"]
  /\ spec_normalize "tv/:id/similar/:id" (VNum 550) = [(lit "id", VNum 550)]
  /\ normalizeParams "tv/:id/similar/:id" (VNum 550) = [].
Proof. vm_compute. repeat split; reflexivity. Qed.

(** C3 (amended).  A structured mapping is returned unchanged.  For a
    raw parameter that is not an object, the normalizer counts the
    matches of [/:[a-z]*/g], one per colon of the template: with
    exactly one colon it returns the single-entry mapping from the run
    of lowercase letters after that colon to the parameter, and with no
    colon or several it returns the empty mapping.  So [movie/:id]
    binds [550] to [id] and [tv/:id/season/:season_number] binds
    nothing. *)
Theorem normalizeParams_counts_colons (endpoint : str) (p : value) :
  (forall o, normalizeParams endpoint (VObj o) = o)
  /\ (isObject p = false -> p <> VUndefined ->
      (forall pre post,
          endpoint = pre ++ ":"%char :: post -> colons pre = 0 -> colons post = 0 ->
          normalizeParams endpoint p = [(take_while (az false) post, p)])
      /\ (colons endpoint <> 1 -> normalizeParams endpoint p = []))
  /\ normalizeParams "movie/:id" (VNum 550) = [(lit "id", VNum 550)]
  /\ normalizeParams "tv/:id/season/:season_number" (VNum 550) = [].
Proof.
  split; [reflexivity|]. split; [|split; reflexivity].
  intros Hobj Hdef.
  assert (E : normalizeParams endpoint p
              = if (List.length (scan_placeholders false endpoint) =? 1)%nat
                then fold_left (fun o m => obj_set (slice1 m) p o)
                               (scan_placeholders false endpoint) []
                else []).
  { unfold normalizeParams. rewrite or_empty_match.
    destruct p; try reflexivity; [congruence | discriminate]. }
  split.
  - intros pre post -> Hpre Hpost. rewrite E, scan_skip by exact Hpre.
    simpl. rewrite (scan_no_colon _ _ Hpost). reflexivity.
  - intros Hn. rewrite E, scan_length.
    destruct (Nat.eqb_spec (colons endpoint) 1); [contradiction | reflexivity].
Qed.

Lemma normalizeParams_counts_colons_witness :
  normalizeParams "find/:id" (VStr "tt0111161") = [(lit "id", VStr "tt0111161")]
  /\ normalizeParams "trending/:media_type/:time_window" (VStr "tv") = [].
Proof.
  destruct (normalizeParams_counts_colons "find/:id" (VStr "tt0111161"))
    as [_ [H _]].
  destruct (normalizeParams_counts_colons "trending/:media_type/:time_window" (VStr "tv"))
    as [_ [H' _]].
  split.
  - apply (proj1 (H eq_refl ltac:(discriminate)) (lit "find/") (lit "id"));
      reflexivity.
  - apply (proj2 (H' eq_refl ltac:(discriminate))). vm_compute. discriminate.
Defined.

(** C4, as the claim states it, fails: a GET request whose
    [fetchOptions] carry a [body] has that body. *)
Lemma get_request_with_caller_body :
  obj_get "body"
    (options (makeRequest (new_MovieDb "KEY" None) Get "movie/:id" (VNum 550)
                          [(lit "body", VStr "x")]))
  = VStr "x".
Proof. reflexivity. Qed.

(** C4 (amended).  For every request whose [fetchOptions] set neither
    [method] nor [body]: with the verb GET the URL is the base URL, the
    compiled path, a question mark and the URL-encoded residual
    parameters, and the request has no body; with any other verb the
    URL ends with the compiled path and the body is the JSON text of
    the residual parameters.  The residual [{language: 'en'}] encodes
    as [language=en] in a query string and as [{"language":"en"}] in a
    body. *)
Theorem residual_goes_by_verb (this : MovieDb) (method : HttpMethod) (endpoint : str)
    (params : value) (fetchOptions : obj) :
  obj_has "method" fetchOptions = false ->
  obj_has "body" fetchOptions = false ->
  let r := makeRequest this method endpoint params fetchOptions in
  let path := baseUrl this ++ getEndpoint endpoint (fullQuery this endpoint params) in
  obj_lookup "method" (options r) = Some (HttpMethod_value method)
  /\ (method = Get ->
      url r = path ++ lit "?" ++ URLSearchParams_toString (query this endpoint params)
      /\ obj_has "body" (options r) = false)
  /\ (method <> Get ->
      url r = path
      /\ obj_lookup "body" (options r)
         = Some (JSON_stringify (VObj (query this endpoint params))))
  /\ URLSearchParams_toString [(lit "language", VStr "en")] = "language=en"
  /\ JSON_stringify (VObj [(lit "language", VStr "en")]) = VStr language_en_json.
Proof.
  intros Hm Hb r path. subst r path. simpl. unfold request_options, request_url.
  rewrite !obj_lookup_spread_other by assumption.
  unfold obj_has. rewrite obj_lookup_spread_other by assumption.
  repeat split.
  - destruct method; reflexivity.
  - subst method. reflexivity.
  - subst method. reflexivity.
  - destruct method; [congruence | reflexivity | reflexivity].
  - destruct method; [congruence | reflexivity | reflexivity].
Qed.

Lemma residual_goes_by_verb_witness :
  url (makeRequest (new_MovieDb "KEY" None) Get "movie/:id" (VNum 550) [])
  = "https://api.themoviedb.org/3/movie/550?api_key=KEY"
  /\ obj_has "body" (options (makeRequest (new_MovieDb "KEY" None) Get "movie/:id" (VNum 550) []))
     = false.
Proof.
  destruct (residual_goes_by_verb (new_MovieDb "KEY" None) Get "movie/:id" (VNum 550) []
              eq_refl eq_refl) as [_ [H _]].
  exact (H eq_refl).
Defined.

(** C5, as the claim states it, fails: an explicit [id] does not keep
    the sentinel out when its value is falsy. *)
Lemma explicit_zero_id_is_overridden :
  let this := mkMovieDb (VStr "KEY") VUndefined "https://api.themoviedb.org/3/" (VStr "SESSION") in
  let params := [(lit "id", VNum 0)] in
  obj_has "id" params = true
  /\ obj_has "id" (merge (default_params this) params) = true
  /\ obj_get "id" (getParams this "account/:id/lists" params) = VStr "{account_id}".
Proof. vm_compute. repeat split; reflexivity. Qed.

(** C5 (amended).  On a template that contains the text [:id]: when a
    session id is set and the [id] of the merged mapping is absent or
    falsy, [{account_id}] becomes the [id] parameter, and the compiled
    path contains [{account_id}] provided no other supplied key
    contains a colon or an opening brace, is a prefix of [id] or begins
    with [id]; when no session id is set, or [id] is truthy, the merged
    mapping is left as it is. *)
Theorem implicit_account_id (this : MovieDb) (endpoint : str) (params : obj) :
  NoDup (Object_keys params) ->
  includes endpoint ":id" = true ->
  (truthy (sessionId this) = true ->
   truthy (obj_get "id" params) = false ->
   obj_get "id" (getParams this endpoint params) = VStr "{account_id}"
   /\ (forallb (fun key => str_eqb key "id" || negb (clashes "id" key || has_char "{" key))
               (Object_keys params) = true ->
       includes (getEndpoint endpoint (getParams this endpoint params)) "{account_id}" = true))
  /\ (truthy (sessionId this) = false \/ truthy (obj_get "id" params) = true ->
      getParams this endpoint params = merge (default_params this) params).
Proof.
  intros Hnd Hinc. split; [|apply getParams_keep; exact Hnd].
  intros Hs Hid.
  assert (Hget : obj_get "id" (getParams this endpoint params) = VStr "{account_id}").
  { rewrite getParams_inject by assumption. apply obj_get_set_same. }
  split; [exact Hget|]. intros Hkeys. rewrite forallb_forall in Hkeys.
  set (fq := getParams this endpoint params) in *.
  assert (Hall : forall k, In k (Object_keys fq) ->
                 k = lit "id" \/ (clashes "id" k = false /\ has_char "{" k = false)).
  { intros k Hk. apply keys_getParams in Hk.
    destruct Hk as [->|[->|[->|Hk]]]; [left; reflexivity | right; split; reflexivity
                                      | right; split; reflexivity |].
    specialize (Hkeys k Hk). destruct (str_eq_dec k (lit "id")) as [E|Hne]; [left; exact E|].
    right. rewrite (str_eqb_neq _ _ Hne) in Hkeys.
    cbn [orb] in Hkeys. rewrite negb_true_iff, orb_false_iff in Hkeys. exact Hkeys. }
  assert (Hin : In (lit "id") (Object_keys fq)).
  { apply In_keys_lookup. intros E. unfold obj_get in Hget. rewrite E in Hget. discriminate. }
  destruct (in_split_first _ _ Hin) as [K1 [K2 [EK HK1]]].
  destruct (includes_split _ _ Hinc) as [b [t ->]].
  unfold getEndpoint. rewrite EK, fold_left_app. cbn [fold_left].
  destruct (getEndpoint_keeps_segment fq "id" ":"%char K1) with (pre := b) (post := t)
    as [pre1 [post1 E1]].
  - vm_compute. intuition discriminate.
  - intros k Hk.
    destruct (Hall k) as [->|[Hc _]]; [rewrite EK; apply in_or_app; left; exact Hk | contradiction |].
    unfold clashes in Hc. rewrite !orb_false_iff in Hc. destruct Hc as [[Hc Hp1] Hp2].
    split; [apply has_char_false, Hc | intros _; split; assumption].
  - change (b ++ ":"%char :: lit "id" ++ t) with (b ++ lit ":id" ++ t) in E1.
    rewrite E1. unfold replace_key at 2. rewrite Hget.
    destruct (split_at_first_complete (lit ":id") pre1 post1) as [b2 [t2 E2]].
    unfold replace.
    change (":"%char :: lit "id") with (lit ":id").
    change (pre1 ++ ":"%char :: lit "id" ++ post1) with (pre1 ++ lit ":id" ++ post1).
    rewrite E2.
    change (GetSubstitution (lit ":id") b2 t2 (ToString (VStr "{account_id}")))
      with (lit "{account_id}").
    destruct (getEndpoint_keeps_segment fq "account_id}" "{"%char K2)
      with (pre := b2) (post := t2) as [pre3 [post3 E3]].
    + vm_compute. intuition discriminate.
    + intros k Hk. split; [|discriminate].
      destruct (Hall k) as [->|[_ Hb]].
      * rewrite EK. apply in_or_app. right. right. exact Hk.
      * vm_compute. intuition discriminate.
      * apply has_char_false, Hb.
    + change (b2 ++ lit "{account_id}" ++ t2) with (b2 ++ "{"%char :: lit "account_id}" ++ t2).
      rewrite E3. apply (includes_app (lit "{account_id}") pre3 post3).
Qed.

Lemma implicit_account_id_witness :
  includes
    (getEndpoint "account/:id/favorite/movies"
       (getParams (mkMovieDb (VStr "KEY") VUndefined "https://api.themoviedb.org/3/" (VStr "SESSION"))
                  "account/:id/favorite/movies" [(lit "language", VStr "en")]))
    "{account_id}" = true.
Proof.
  destruct (implicit_account_id
              (mkMovieDb (VStr "KEY") VUndefined "https://api.themoviedb.org/3/" (VStr "SESSION"))
              "account/:id/favorite/movies" [(lit "language", VStr "en")]) as [H _].
  - constructor; [simpl; tauto | constructor].
  - reflexivity.
  - apply (proj2 (H eq_refl eq_refl)). reflexivity.
Defined.

(** ** [requestToken] *)

Lemma makeRequest_ignores_token (this : MovieDb) (v : value) (method : HttpMethod)
    (endpoint : str) (params : value) (fetchOptions : obj) :
  makeRequest {| apiKey := apiKey this; token := v; baseUrl := baseUrl this;
                 sessionId := sessionId this |} method endpoint params fetchOptions
  = makeRequest this method endpoint params fetchOptions.
Proof. reflexivity. Qed.

Section TokenCache.

Variable respond : nat -> Request -> outcome value.
Variable Date_getTime : value -> option Z.

Lemma requestToken_refresh (now : Z) (w : World) (response : value) :
  refresh_due Date_getTime now (client w) = true ->
  respond (List.length (sent w))
          (makeRequest (client w) Get "authentication/token/new" VUndefined [])
  = Fulfilled response ->
  requestToken respond Date_getTime now w
  = (Fulfilled response,
     {| client := {| apiKey := apiKey (client w); token := response;
                     baseUrl := baseUrl (client w); sessionId := sessionId (client w) |};
        sent := sent w ++ [makeRequest (client w) Get "authentication/token/new"
                                       VUndefined []] |}).
Proof.
  intros Hdue Hresp. unfold requestToken, bind, read_client, dispatch, set_token, ret.
  cbn [client sent]. rewrite Hdue. cbn [client sent]. rewrite Hresp. reflexivity.
Qed.

Lemma requestToken_cached (now : Z) (w : World) :
  refresh_due Date_getTime now (client w) = false ->
  requestToken respond Date_getTime now w = (Fulfilled (token (client w)), w).
Proof.
  intros Hdue. unfold requestToken, bind, read_client, ret.
  cbn [client sent]. rewrite Hdue. reflexivity.
Qed.

(** C6.  Starting with no token, or an expired one, the first call of
    [requestToken] sends one request and caches the response; a
    second call made while the time is not greater than the parsed
    [expires_at] of that token sends nothing and returns the same
    token; a call made after the expiry sends a second request and
    the response replaces the cached token. *)
Theorem requestToken_cached_until_expiry (w0 : World) (now1 now2 now3 : Z)
    (first second : value) :
  let request := makeRequest (client w0) Get "authentication/token/new" VUndefined [] in
  refresh_due Date_getTime now1 (client w0) = true ->
  respond (List.length (sent w0)) request = Fulfilled first ->
  truthy first = true ->
  later_than now2 (Date_getTime (prop first "expires_at")) = false ->
  later_than now3 (Date_getTime (prop first "expires_at")) = true ->
  respond (S (List.length (sent w0))) request = Fulfilled second ->
  exists w1 w2,
    requestToken respond Date_getTime now1 w0 = (Fulfilled first, w1)
    /\ requestToken respond Date_getTime now2 w1 = (Fulfilled first, w1)
    /\ token (client w1) = first
    /\ sent w1 = sent w0 ++ [request]
    /\ requestToken respond Date_getTime now3 w1 = (Fulfilled second, w2)
    /\ token (client w2) = second
    /\ sent w2 = sent w0 ++ [request; request].
Proof.
  intros request Hdue H1 Ht Hfresh Hexpired H2.
  eexists. eexists.
  split; [apply requestToken_refresh; eassumption|].
  split.
  { rewrite requestToken_cached; [reflexivity|].
    unfold refresh_due. cbn [client token]. rewrite Ht, Hfresh. reflexivity. }
  split; [reflexivity|]. split; [reflexivity|].
  split.
  { rewrite (requestToken_refresh now3 _ second).
    - reflexivity.
    - unfold refresh_due. cbn [client token]. rewrite Hexpired. apply orb_true_r.
    - cbn [client sent]. rewrite length_app, Nat.add_comm. exact H2. }
  split; [reflexivity|].
  cbn [sent client]. rewrite <- app_assoc. reflexivity.
Qed.

End TokenCache.

Lemma requestToken_cached_until_expiry_witness :
  let issued := fun (n : nat) =>
    VObj [(lit "success", VBool true);
          (lit "expires_at", VNum (100 + 100 * Z.of_nat n));
          (lit "request_token", VStr "abc")] in
  let respond := fun (n : nat) (_ : Request) => Fulfilled (issued n) in
  let Date_getTime := fun v => match v with VNum z => Some z | _ => None end in
  let w0 := {| client := new_MovieDb "KEY" None; sent := [] |} in
  exists w1 w2,
    requestToken respond Date_getTime 0 w0 = (Fulfilled (issued 0), w1)
    /\ requestToken respond Date_getTime 50 w1 = (Fulfilled (issued 0), w1)
    /\ List.length (sent w1) = 1
    /\ requestToken respond Date_getTime 150 w1 = (Fulfilled (issued 1), w2)
    /\ token (client w2) = issued 1
    /\ List.length (sent w2) = 2.
Proof.
  intros issued respond Date_getTime w0.
  destruct (requestToken_cached_until_expiry respond Date_getTime w0 0 50 150
              (issued 0) (issued 1)
              eq_refl eq_refl eq_refl eq_refl eq_refl eq_refl)
    as [w1 [w2 [H1 [H2 [Ht1 [Hs1 [H3 [Ht2 Hs2]]]]]]]].
  exists w1, w2. rewrite Hs1, Hs2.
  repeat split; assumption.
Defined.

(** C7, as the claim states it, fails: with the template [movie/:id]
    and the one parameter [i], no parameter named [id] is supplied, and
    the compiled path is [movie/7d]. *)
Lemma prefix_key_breaks_placeholder :
  names "movie/:id" = [lit "id"]
  /\ obj_has "id" [(lit "i", VNum 7)] = false
  /\ getEndpoint "movie/:id" [(lit "i", VNum 7)] = "movie/7d"
  /\ includes (getEndpoint "movie/:id" [(lit "i", VNum 7)]) ":id" = false.
Proof. vm_compute. repeat split; reflexivity. Qed.

(** C7 (amended).  Path compilation is a total function, and it leaves
    the text [:name] of the template where it is whenever no supplied
    key contains a colon, is a prefix of [name] (as the key [name]
    itself and the empty key are) or begins with [name]. *)
Theorem unresolved_placeholder_stays (endpoint pre name post : str) (params : obj) :
  endpoint = pre ++ lit ":" ++ name ++ post ->
  has_char ":" name = false ->
  forallb (fun key => negb (clashes name key)) (Object_keys params) = true ->
  exists pre' post', getEndpoint endpoint params = pre' ++ lit ":" ++ name ++ post'.
Proof.
  intros -> Hname Hkeys. unfold getEndpoint.
  apply (getEndpoint_keeps_segment params name ":"%char).
  - apply has_char_false, Hname.
  - intros k Hk. rewrite forallb_forall in Hkeys. specialize (Hkeys k Hk).
    unfold clashes in Hkeys. rewrite negb_true_iff, !orb_false_iff in Hkeys.
    destruct Hkeys as [[Hc Hp1] Hp2]. split.
    + apply has_char_false, Hc.
    + intros _. split; assumption.
Qed.

Lemma unresolved_placeholder_stays_witness :
  exists pre' post',
    getEndpoint "tv/:id/season/:season_number" [(lit "id", VNum 42)]
    = pre' ++ lit ":" ++ lit "season_number" ++ post'.
Proof.
  apply (unresolved_placeholder_stays "tv/:id/season/:season_number"
           "tv/:id/season/" "season_number" "" [(lit "id", VNum 42)]); reflexivity.
Defined.

(** C8, as the claim states it, fails: the computed body is not out of
    the caller's reach.  A [body] among the [fetchOptions] of a POST
    replaces the JSON text of the residual parameters. *)
Lemma caller_body_replaces_computed_body :
  let this := new_MovieDb "KEY" None in
  let params := VObj [(lit "id", VNum 550); (lit "value", VNum 8)] in
  obj_get "body" (computed_options this Post "movie/:id/rating" params)
  = JSON_stringify (VObj (query this "movie/:id/rating" params))
  /\ obj_get "body"
       (options (makeRequest this Post "movie/:id/rating" params [(lit "body", VStr "x")]))
     = VStr "x"
  /\ JSON_stringify (VObj (query this "movie/:id/rating" params)) <> VStr "x".
Proof. vm_compute. repeat split; discriminate. Qed.

(** C8 (amended).  The caller's [fetchOptions] are spread last into
    the options of the request: every field they name, [method] and
    [body] included, takes their value, every field they do not name
    keeps the computed one, and the URL does not depend on them. *)
Theorem fetchOptions_spread_last (this : MovieDb) (method : HttpMethod) (endpoint : str)
    (params : value) (fetchOptions : obj) :
  NoDup (Object_keys fetchOptions) ->
  let r := makeRequest this method endpoint params fetchOptions in
  url r = url (makeRequest this method endpoint params [])
  /\ (forall k v, obj_lookup k fetchOptions = Some v -> obj_lookup k (options r) = Some v)
  /\ (forall k, obj_has k fetchOptions = false ->
                obj_lookup k (options r)
                = obj_lookup k (computed_options this method endpoint params)).
Proof.
  intros Hnd r. subst r. simpl. unfold request_options. split; [reflexivity|]. split.
  - intros k v Hk. apply obj_lookup_spread_in; assumption.
  - intros k Hk. apply obj_lookup_spread_other, Hk.
Qed.

Lemma fetchOptions_spread_last_witness :
  obj_lookup "credentials"
    (options (makeRequest (new_MovieDb "KEY" None) Post "movie/:id/rating"
                (VObj [(lit "id", VNum 550); (lit "value", VNum 8)])
                [(lit "credentials", VStr "omit")]))
  = Some (VStr "omit")
  /\ obj_lookup "method"
       (options (makeRequest (new_MovieDb "KEY" None) Post "movie/:id/rating"
                   (VObj [(lit "id", VNum 550); (lit "value", VNum 8)])
                   [(lit "credentials", VStr "omit")]))
     = Some (VStr "POST").
Proof.
  destruct (fetchOptions_spread_last (new_MovieDb "KEY" None) Post "movie/:id/rating"
              (VObj [(lit "id", VNum 550); (lit "value", VNum 8)])
              [(lit "credentials", VStr "omit")]) as [_ [Hin Hout]].
  - constructor; [simpl; tauto | constructor].
  - split.
    + apply Hin. reflexivity.
    + rewrite Hout; reflexivity.
Defined.

(** C10.  On a template that contains [:id], with a session id set, a
    caller-supplied [id] whose value is falsy (the number 0, the empty
    string) is replaced by the sentinel [{account_id}]: the condition
    tests the merged value of [id], not whether the key is there.  A
    truthy [id] is left as the merge produced it. *)
Theorem falsy_id_is_replaced (this : MovieDb) (endpoint : str) (params : obj) (v : value) :
  NoDup (Object_keys params) ->
  includes endpoint ":id" = true ->
  truthy (sessionId this) = true ->
  obj_lookup "id" params = Some v ->
  (truthy v = false ->
   obj_has "id" params = true
   /\ obj_get "id" (fullQuery this endpoint (VObj params)) = VStr "{account_id}")
  /\ (truthy v = true ->
      fullQuery this endpoint (VObj params) = merge (default_params this) params).
Proof.
  intros Hnd Hinc Hs Hv. unfold fullQuery.
  change (normalizeParams endpoint (VObj params)) with params.
  assert (Hget : obj_get "id" params = v) by (unfold obj_get; rewrite Hv; reflexivity).
  split; intros Ht.
  - split; [unfold obj_has; rewrite Hv; reflexivity|].
    rewrite getParams_inject by (try assumption; rewrite Hget; exact Ht).
    apply obj_get_set_same.
  - apply getParams_keep; [assumption|]. right. rewrite Hget. exact Ht.
Qed.

Lemma falsy_id_is_replaced_witness :
  obj_get "id"
    (fullQuery (mkMovieDb (VStr "KEY") VUndefined "https://api.themoviedb.org/3/" (VStr "SESSION"))
               "account/:id/lists" (VObj [(lit "id", VNum 0)]))
  = VStr "{account_id}"
  /\ obj_get "id"
       (fullQuery (mkMovieDb (VStr "KEY") VUndefined "https://api.themoviedb.org/3/" (VStr "SESSION"))
                  "account/:id/lists" (VObj [(lit "id", VStr "")]))
     = VStr "{account_id}".
Proof.
  split.
  - apply (falsy_id_is_replaced
             (mkMovieDb (VStr "KEY") VUndefined "https://api.themoviedb.org/3/" (VStr "SESSION"))
             "account/:id/lists" [(lit "id", VNum 0)] (VNum 0));
      try reflexivity.
    constructor; [simpl; tauto | constructor].
  - apply (falsy_id_is_replaced
             (mkMovieDb (VStr "KEY") VUndefined "https://api.themoviedb.org/3/" (VStr "SESSION"))
             "account/:id/lists" [(lit "id", VStr "")] (VStr ""));
      try reflexivity.
    constructor; [simpl; tauto | constructor].
Defined.

(** * Further properties of the code *)

(** ** Further properties of [getEndpoint] *)

Lemma split_at_first_no_colon (k s : str) :
  ~ In ":"%char s -> split_at_first (":"%char :: k) s = None.
Proof.
  intros H. rewrite <- (app_nil_r s), (split_at_first_skip _ _ _ _ H). reflexivity.
Qed.

Lemma replace_no_colon (k r s : str) :
  ~ In ":"%char s -> replace s (":"%char :: k) r = s.
Proof. intros H. unfold replace. rewrite (split_at_first_no_colon _ _ H). reflexivity. Qed.

Lemma fold_replace_key_no_colon (params : obj) (keys : list str) (s : str) :
  ~ In ":"%char s -> fold_left (replace_key params) keys s = s.
Proof.
  intros H. induction keys as [|key keys IH]; [reflexivity|].
  cbn [fold_left]. unfold replace_key at 2. rewrite (replace_no_colon _ _ _ H). exact IH.
Qed.

(** X1.  A template without colon is compiled to itself, whatever the
    parameters are. *)
Theorem getEndpoint_without_placeholder (endpoint : str) (params : obj) :
  colons endpoint = 0 -> getEndpoint endpoint params = endpoint.
Proof.
  intros H. apply fold_replace_key_no_colon, colons_0_notin, H.
Qed.

Lemma getEndpoint_without_placeholder_witness :
  getEndpoint "search/movie" [(lit "query", VStr "a:b"); (lit "page", VNum 2)]
  = "search/movie".
Proof.
  apply (getEndpoint_without_placeholder "search/movie"
           [(lit "query", VStr "a:b"); (lit "page", VNum 2)]).
  reflexivity.
Defined.

Lemma split_at_first_here (k pre rest : str) :
  ~ In ":"%char pre ->
  split_at_first (":"%char :: k) (pre ++ ":"%char :: k ++ rest) = Some (pre, rest).
Proof.
  intros H. rewrite (split_at_first_skip _ _ _ _ H).
  assert (E : strip_prefix (":"%char :: k) (":"%char :: k ++ rest) = Some rest)
    by apply (strip_prefix_app (":"%char :: k) rest).
  cbn [split_at_first]. rewrite E. cbn [shift]. rewrite app_nil_r. reflexivity.
Qed.

Lemma replace_first (k v pre rest : str) :
  ~ In ":"%char pre ->
  has_char "$" v = false ->
  replace (pre ++ ":"%char :: k ++ rest) (":"%char :: k) v = pre ++ v ++ rest.
Proof.
  intros H Hv. unfold replace.
  rewrite (split_at_first_here _ _ _ H), (GetSubstitution_plain _ _ _ _ Hv). reflexivity.
Qed.

(** X2.  Only the first occurrence of [:key] is replaced: what follows
    it in the template, further occurrences of [:key] included, is
    kept as it is. *)
Theorem getEndpoint_first_occurrence_only (pre key rest : str) (v : value) :
  colons pre = 0 ->
  has_char "$" (ToString v) = false ->
  getEndpoint (pre ++ lit ":" ++ key ++ rest) [(key, v)] = pre ++ ToString v ++ rest.
Proof.
  intros Hpre Hv. unfold getEndpoint. cbn [Object_keys map fst fold_left].
  unfold replace_key, obj_get. cbn [obj_lookup]. rewrite str_eqb_refl.
  change (lit ":" ++ key ++ rest) with (":"%char :: key ++ rest).
  apply replace_first; [apply colons_0_notin, Hpre | exact Hv].
Qed.

Lemma getEndpoint_first_occurrence_only_witness :
  getEndpoint "list/:id/copy/:id" [(lit "id", VNum 7)] = "list/7/copy/:id".
Proof.
  apply (getEndpoint_first_occurrence_only "list/" "id" "/copy/:id" (VNum 7)); reflexivity.
Defined.

(** X3.  The value of a parameter is read as a replacement pattern:
    a parameter whose value is the string [$&] puts the matched text
    [:key] back, so the template is compiled to itself. *)
Theorem getEndpoint_dollar_ampersand (endpoint key : str) :
  getEndpoint endpoint [(key, VStr "$&")] = endpoint.
Proof.
  unfold getEndpoint. cbn [Object_keys map fst fold_left].
  unfold replace_key, obj_get. cbn [obj_lookup]. rewrite str_eqb_refl.
  unfold replace. destruct (split_at_first (":"%char :: key) endpoint) as [[b a]|] eqn:E;
    [|reflexivity].
  apply split_at_first_sound in E. rewrite E.
  change (GetSubstitution (":"%char :: key) b a (ToString (VStr "$&")))
    with ((":"%char :: key) ++ []).
  rewrite app_nil_r. reflexivity.
Qed.

(** ** Scalars and [makeRequest] *)

Lemma makeRequest_normalized (this : MovieDb) (method : HttpMethod) (endpoint : str)
    (p p' : value) (fetchOptions : obj) :
  normalizeParams endpoint p = normalizeParams endpoint p' ->
  makeRequest this method endpoint p fetchOptions
  = makeRequest this method endpoint p' fetchOptions.
Proof.
  intros H. unfold makeRequest, request_url, request_options, computed_options,
    query, fullQuery. rewrite H. reflexivity.
Qed.

Lemma normalizeParams_scalar (endpoint : str) (p : value) :
  isObject p = false -> p <> VUndefined ->
  normalizeParams endpoint p
  = if (colons endpoint =? 1)%nat
    then fold_left (fun o m => obj_set (slice1 m) p o) (scan_placeholders false endpoint) []
    else [].
Proof.
  intros Hobj Hdef. unfold normalizeParams. rewrite or_empty_match, scan_length.
  destruct p; try reflexivity; [congruence | discriminate].
Qed.

Lemma normalizeParams_one (pre post : str) (p : value) :
  isObject p = false -> p <> VUndefined ->
  colons pre = 0 -> colons post = 0 ->
  normalizeParams (pre ++ ":"%char :: post) p = [(take_while (az false) post, p)].
Proof.
  intros Hobj Hdef Hpre Hpost. rewrite (normalizeParams_scalar _ _ Hobj Hdef).
  unfold colons at 1. rewrite count_occ_app. fold (colons pre). rewrite Hpre. cbn [count_occ].
  destruct (ascii_dec ":" ":") as [_|N]; [|congruence].
  fold (colons post). rewrite Hpost. cbn [Nat.add Nat.eqb].
  rewrite scan_skip by exact Hpre. cbn [scan_placeholders]. rewrite Ascii.eqb_refl.
  rewrite (scan_no_colon _ _ Hpost). reflexivity.
Qed.

(** X4.  On a template with exactly one colon, a scalar parameter
    stands for the mapping that binds it to the run of lowercase
    letters after the colon: both calls submit the same request. *)
Theorem scalar_is_shorthand (this : MovieDb) (method : HttpMethod) (pre post : str)
    (p : value) (fetchOptions : obj) :
  isObject p = false -> p <> VUndefined ->
  colons pre = 0 -> colons post = 0 ->
  makeRequest this method (pre ++ lit ":" ++ post) p fetchOptions
  = makeRequest this method (pre ++ lit ":" ++ post)
      (VObj [(take_while (az false) post, p)]) fetchOptions.
Proof.
  intros Hobj Hdef Hpre Hpost. apply makeRequest_normalized.
  change (lit ":" ++ post) with (":"%char :: post).
  rewrite (normalizeParams_one _ _ _ Hobj Hdef Hpre Hpost). reflexivity.
Qed.

Lemma scalar_is_shorthand_witness :
  makeRequest (new_MovieDb "KEY" None) Get "movie/:id/credits" (VNum 550) []
  = makeRequest (new_MovieDb "KEY" None) Get "movie/:id/credits"
      (VObj [(lit "id", VNum 550)]) [].
Proof.
  apply (scalar_is_shorthand (new_MovieDb "KEY" None) Get "movie/" "id/credits" (VNum 550) []);
    [reflexivity | discriminate | reflexivity | reflexivity].
Defined.

(** X5.  On a template with no colon, or with more than one, a scalar
    parameter is dropped without an error: the request is the one made
    with no parameters at all. *)
Theorem scalar_is_dropped (this : MovieDb) (method : HttpMethod) (endpoint : str)
    (p : value) (fetchOptions : obj) :
  isObject p = false ->
  colons endpoint <> 1 ->
  makeRequest this method endpoint p fetchOptions
  = makeRequest this method endpoint (VObj []) fetchOptions.
Proof.
  intros Hobj Hn. apply makeRequest_normalized.
  assert (D : p = VUndefined \/ p <> VUndefined)
    by (destruct p; (left; reflexivity) || (right; discriminate)).
  destruct D as [->|Hdef]; [reflexivity|].
  rewrite (normalizeParams_scalar _ _ Hobj Hdef).
  destruct (Nat.eqb_spec (colons endpoint) 1); [contradiction | reflexivity].
Qed.

Lemma scalar_is_dropped_witness :
  makeRequest (new_MovieDb "KEY" None) Get "tv/:id/season/:season_number" (VNum 1399) []
  = makeRequest (new_MovieDb "KEY" None) Get "tv/:id/season/:season_number" (VObj []) [].
Proof.
  apply (scalar_is_dropped (new_MovieDb "KEY" None) Get "tv/:id/season/:season_number"
           (VNum 1399) []); [reflexivity | vm_compute; discriminate].
Defined.

(** ** Further properties of [getParams] *)

Lemma getParams_other_key (this : MovieDb) (endpoint : str) (params : obj) (k : str) :
  k <> lit "id" ->
  obj_lookup k (getParams this endpoint params)
  = obj_lookup k (merge (default_params this) params).
Proof.
  intros Hk. unfold getParams.
  destruct (includes endpoint ":id" && _ && _); [|reflexivity].
  rewrite obj_lookup_set, str_eqb_neq by exact Hk. reflexivity.
Qed.



Lemma default_params_api_key (this : MovieDb) :
  obj_lookup "api_key" (default_params this) = Some (apiKey this).
Proof.
  unfold default_params. destruct (truthy (sessionId this)) eqn:E; [reflexivity|].
  destruct (sessionId this); try reflexivity. discriminate.
Qed.

Lemma default_params_session_id (this : MovieDb) :
  obj_lookup "session_id" (default_params this)
  = if truthy (sessionId this) then Some (sessionId this) else None.
Proof.
  unfold default_params. destruct (truthy (sessionId this)) eqn:E; [reflexivity|].
  destruct (sessionId this); try reflexivity. discriminate.
Qed.

(** X7.  Unless the caller supplies them, the full query of every
    request carries [api_key] with the key of the client and carries
    [session_id], with the session id of the client, exactly when that
    is set (truthy). *)
Theorem defaults_are_merged (this : MovieDb) (endpoint : str) (params : obj) :
  (~ In (lit "api_key") (Object_keys params) ->
   obj_lookup "api_key" (getParams this endpoint params) = Some (apiKey this))
  /\ (~ In (lit "session_id") (Object_keys params) ->
      obj_lookup "session_id" (getParams this endpoint params)
      = if truthy (sessionId this) then Some (sessionId this) else None).
Proof.
  split; intros H.
  - rewrite getParams_other_key by discriminate.
    rewrite obj_lookup_merge_absent by exact H. apply default_params_api_key.
  - rewrite getParams_other_key by discriminate.
    rewrite obj_lookup_merge_absent by exact H. apply default_params_session_id.
Qed.

Lemma defaults_are_merged_witness :
  obj_lookup "session_id"
    (getParams (mkMovieDb (VStr "KEY") VUndefined "https://api.themoviedb.org/3/" (VStr "SESSION"))
               "account/:id/lists" [(lit "page", VNum 2)])
  = Some (VStr "SESSION").
Proof.
  apply (proj2 (defaults_are_merged
                  (mkMovieDb (VStr "KEY") VUndefined "https://api.themoviedb.org/3/" (VStr "SESSION"))
                  "account/:id/lists" [(lit "page", VNum 2)])).
  simpl. intuition discriminate.
Defined.

(** ** Unique keys *)

Lemma keys_obj_update (k : str) (v : value) (o : obj) :
  Object_keys (obj_update k v o) = Object_keys o.
Proof.
  induction o as [|[k0 v0] o IH]; [reflexivity|]. simpl.
  destruct (str_eqb k k0); simpl; [reflexivity | rewrite IH; reflexivity].
Qed.

Lemma In_keys_obj_add (x k : str) (v : value) (o : obj) :
  In x (Object_keys (obj_add k v o)) <-> x = k \/ In x (Object_keys o).
Proof.
  induction o as [|[k0 v0] o IH]; simpl.
  - intuition.
  - destruct (key_before k k0); simpl; [intuition|]. rewrite IH. intuition.
Qed.

Lemma NoDup_obj_add (k : str) (v : value) (o : obj) :
  ~ In k (Object_keys o) -> NoDup (Object_keys o) -> NoDup (Object_keys (obj_add k v o)).
Proof.
  induction o as [|[k0 v0] o IH]; simpl; intros Hk Hnd.
  - constructor; [intros [] | constructor].
  - destruct (key_before k k0); simpl.
    + constructor; assumption.
    + inversion Hnd as [|? ? Hk0 Hnd']; subst. constructor.
      * rewrite In_keys_obj_add. intros [E|H]; [|contradiction].
        apply Hk. left. exact E.
      * apply IH; [|exact Hnd']. intros H. apply Hk. right. exact H.
Qed.

Lemma NoDup_obj_set (k : str) (v : value) (o : obj) :
  NoDup (Object_keys o) -> NoDup (Object_keys (obj_set k v o)).
Proof.
  intros Hnd. unfold obj_set, obj_has. destruct (obj_lookup k o) eqn:E.
  - rewrite keys_obj_update. exact Hnd.
  - apply NoDup_obj_add; [apply obj_lookup_None_keys, E | exact Hnd].
Qed.

Lemma NoDup_merge_step (object : obj) (key : str) (v : value) :
  NoDup (Object_keys object) -> NoDup (Object_keys (merge_step object key v)).
Proof.
  intros Hnd. unfold merge_step, assignMergeValue.
  destruct v; try (apply NoDup_obj_set, Hnd).
  destruct (obj_has key object); [exact Hnd | apply NoDup_obj_set, Hnd].
Qed.

Lemma NoDup_merge (source object : obj) :
  NoDup (Object_keys object) -> NoDup (Object_keys (merge object source)).
Proof.
  revert object. induction source as [|[k v] source IH]; intros object Hnd; [exact Hnd|].
  rewrite merge_cons. apply IH, NoDup_merge_step, Hnd.
Qed.

Lemma NoDup_default_params (this : MovieDb) : NoDup (Object_keys (default_params this)).
Proof.
  unfold default_params.
  destruct (truthy (sessionId this)) eqn:E.
  - vm_compute. repeat constructor; simpl; intuition discriminate.
  - destruct (sessionId this); try discriminate;
      vm_compute; repeat constructor; simpl; intuition discriminate.
Qed.

Lemma keys_omit (object : obj) (paths : list str) :
  Object_keys (omit object paths)
  = filter (fun k => negb (str_in k paths)) (Object_keys object).
Proof.
  unfold omit, Object_keys. induction object as [|[k v] object IH]; [reflexivity|].
  simpl. destruct (str_in k paths); simpl; rewrite IH; reflexivity.
Qed.

(** X8.  No parameter name occurs twice in the full query of a request
    or in its residual parameters, whatever the caller passes. *)
Theorem request_keys_are_unique (this : MovieDb) (endpoint : str) (params : value) :
  NoDup (Object_keys (fullQuery this endpoint params))
  /\ NoDup (Object_keys (query this endpoint params)).
Proof.
  assert (H : NoDup (Object_keys (fullQuery this endpoint params))).
  { unfold fullQuery, getParams.
    destruct (includes endpoint ":id" && _ && _);
      [apply NoDup_obj_set|]; apply NoDup_merge, NoDup_default_params. }
  split; [exact H|]. unfold query. rewrite keys_omit. apply NoDup_filter, H.
Qed.

(** ** The residual parameters *)

Lemma names_letters (s n : str) : In n (names s) -> forallb is_letter n = true.
Proof.
  induction s as [|c s IH]; [intros []|].
  rewrite names_cons. destruct (Ascii.eqb c ":"); [|exact IH].
  intros [<-|H]; [apply take_while_all | exact (IH H)].
Qed.

Lemma query_lookup (this : MovieDb) (endpoint : str) (params : value) (k : str) :
  obj_lookup k (query this endpoint params)
  = if str_in k (names endpoint) then None
    else obj_lookup k (fullQuery this endpoint params).
Proof. unfold query. rewrite obj_lookup_omit, omittedProps_names. reflexivity. Qed.

Lemma query_lookup_kept (this : MovieDb) (endpoint : str) (params : value) (k : str) :
  ~ In k (names endpoint) ->
  obj_lookup k (query this endpoint params)
  = obj_lookup k (fullQuery this endpoint params).
Proof.
  intros H. rewrite query_lookup.
  destruct (str_in k (names endpoint)) eqn:E; [|reflexivity].
  apply str_in_In in E. contradiction.
Qed.

(** X9.  The residual parameters are the full query without the names
    the pattern finds in the template; those names are runs of letters,
    so a key with any other character (an underscore, a digit) is never
    removed, whatever the template is. *)
Theorem residual_keeps_other_keys (this : MovieDb) (endpoint : str) (params : value)
    (k : str) :
  (In k (names endpoint) -> obj_has k (query this endpoint params) = false)
  /\ (~ In k (names endpoint) ->
      obj_lookup k (query this endpoint params)
      = obj_lookup k (fullQuery this endpoint params))
  /\ (forallb is_letter k = false ->
      obj_lookup k (query this endpoint params)
      = obj_lookup k (fullQuery this endpoint params)).
Proof.
  split; [|split].
  - intros H. unfold obj_has. rewrite query_lookup.
    apply str_in_In in H. rewrite H. reflexivity.
  - apply query_lookup_kept.
  - intros H. apply query_lookup_kept. intros Hin. apply names_letters in Hin. congruence.
Qed.

Lemma residual_keeps_other_keys_witness :
  obj_lookup "episode_number"
    (query (new_MovieDb "KEY" None) "tv/:id/season/:season_number/episode/:episode_number"
       (VObj [(lit "id", VNum 1399); (lit "season_number", VNum 1);
              (lit "episode_number", VNum 2)]))
  = obj_lookup "episode_number"
      (fullQuery (new_MovieDb "KEY" None) "tv/:id/season/:season_number/episode/:episode_number"
         (VObj [(lit "id", VNum 1399); (lit "season_number", VNum 1);
                (lit "episode_number", VNum 2)])).
Proof.
  apply (proj2 (proj2 (residual_keeps_other_keys (new_MovieDb "KEY" None)
                         "tv/:id/season/:season_number/episode/:episode_number"
                         (VObj [(lit "id", VNum 1399); (lit "season_number", VNum 1);
                                (lit "episode_number", VNum 2)])
                         "episode_number"))).
  reflexivity.
Defined.

Lemma scan_elements (ignoreCase : bool) (s m : str) :
  In m (scan_placeholders ignoreCase s) ->
  exists rest, m = ":"%char :: take_while (az ignoreCase) rest.
Proof.
  induction s as [|c s IH]; [intros []|]. simpl.
  destruct (Ascii.eqb_spec c ":"%char) as [->|]; [|exact IH].
  intros [<-|H]; [exists s; reflexivity | exact (IH H)].
Qed.

Lemma normalizeParams_scalar_keys (endpoint : str) (p : value) (k : str) :
  isObject p = false ->
  In k (Object_keys (normalizeParams endpoint p)) -> forallb (az false) k = true.
Proof.
  intros Hobj.
  assert (D : p = VUndefined \/ p <> VUndefined)
    by (destruct p; (left; reflexivity) || (right; discriminate)).
  destruct D as [->|Hdef]; [intros []|].
  rewrite (normalizeParams_scalar _ _ Hobj Hdef), <- (scan_length false).
  destruct (scan_placeholders false endpoint) as [|m [|m' l]] eqn:E;
    cbn; intros H; try contradiction.
  destruct H as [<-|[]].
  destruct (scan_elements false endpoint m) as [rest ->]; [rewrite E; left; reflexivity|].
  apply take_while_all.
Qed.

(** X10.  Whatever the template is, the residual parameters of a
    request carry the api key of the client, unless the caller passes
    an [api_key] of their own. *)
Theorem api_key_is_always_sent (this : MovieDb) (endpoint : str) (params : value) :
  (forall o, params = VObj o -> ~ In (lit "api_key") (Object_keys o)) ->
  obj_lookup "api_key" (query this endpoint params) = Some (apiKey this).
Proof.
  intros Hcaller. rewrite query_lookup_kept.
  2:{ intros Hin. apply names_letters in Hin. discriminate. }
  unfold fullQuery. rewrite getParams_other_key by discriminate.
  rewrite obj_lookup_merge_absent; [apply default_params_api_key|].
  destruct (isObject params) eqn:Hobj.
  - destruct params; try discriminate. apply Hcaller. reflexivity.
  - intros Hin. apply (normalizeParams_scalar_keys _ _ _ Hobj) in Hin. discriminate.
Qed.

Lemma api_key_is_always_sent_witness :
  obj_lookup "api_key"
    (query (new_MovieDb "KEY" None) "movie/:id/rating"
           (VObj [(lit "id", VNum 550); (lit "value", VNum 8)]))
  = Some (VStr "KEY").
Proof.
  apply (api_key_is_always_sent (new_MovieDb "KEY" None) "movie/:id/rating"
           (VObj [(lit "id", VNum 550); (lit "value", VNum 8)])).
  intros o [= <-]. simpl. intuition discriminate.
Defined.

(** ** One placeholder, end to end *)


Lemma letter_not_digit (c : ascii) : is_letter c = true -> is_digit c = false.
Proof.
  unfold is_letter, az, is_lower, is_upper, is_digit. cbn [andb].
  set (n := nat_of_ascii c). intros H.
  destruct (Nat.leb_spec 48 n) as [Hlo|]; [|reflexivity].
  destruct (Nat.leb_spec n 57) as [Hhi|]; [|reflexivity].
  exfalso. apply orb_prop in H. destruct H as [H|H];
    apply andb_prop in H; destruct H as [Ha Hb];
    apply Nat.leb_le in Ha; lia.
Qed.

Lemma array_index_letters (name : str) :
  name <> [] -> forallb is_letter name = true -> array_index name = None.
Proof.
  destruct name as [|c name]; [congruence|]. intros _ H.
  cbn [forallb] in H. apply andb_prop in H. destruct H as [Hc _].
  unfold array_index. cbn [forallb]. rewrite (letter_not_digit _ Hc). reflexivity.
Qed.

Lemma obj_add_append (k : str) (v : value) (o : obj) :
  array_index k = None -> obj_add k v o = o ++ [(k, v)].
Proof.
  intros H. induction o as [|[k0 v0] o IH]; [reflexivity|].
  cbn [obj_add]. unfold key_before. rewrite H. cbn [app]. rewrite IH. reflexivity.
Qed.



Lemma letters_not_default_key (this : MovieDb) (name : str) :
  forallb is_letter name = true -> ~ In name (Object_keys (default_params this)).
Proof.
  intros H Hin. apply keys_default_params in Hin. destruct Hin as [->| ->]; discriminate.
Qed.






(** ** The endpoint methods *)

Lemma includes_no_colon (k s : str) :
  ~ In ":"%char s -> includes s (":"%char :: k) = false.
Proof. intros H. unfold includes. rewrite (split_at_first_no_colon _ _ H). reflexivity. Qed.

Lemma names_no_colon (s : str) : colons s = 0 -> names s = [].
Proof. intros H. unfold names. rewrite (scan_no_colon _ _ H). reflexivity. Qed.

Lemma omit_nothing (object : obj) : omit object [] = object.
Proof.
  unfold omit. induction object as [|kv object IH]; [reflexivity|].
  cbn [filter str_in existsb negb]. f_equal. exact IH.
Qed.

Lemma getParams_no_colon (this : MovieDb) (endpoint : str) (params : obj) :
  colons endpoint = 0 ->
  getParams this endpoint params = merge (default_params this) params.
Proof.
  intros H. unfold getParams.
  pose proof (includes_no_colon (lit "id") endpoint (proj1 (colons_0_notin _) H)) as E.
  change (":"%char :: lit "id") with (lit ":id") in E. rewrite E. reflexivity.
Qed.

Lemma request_no_colon (this : MovieDb) (endpoint : str) (params : value) :
  colons endpoint = 0 ->
  getEndpoint endpoint (fullQuery this endpoint params) = endpoint
  /\ query this endpoint params
     = merge (default_params this) (normalizeParams endpoint params).
Proof.
  intros H. split.
  - apply fold_replace_key_no_colon, colons_0_notin, H.
  - unfold query, fullQuery.
    rewrite omittedProps_names, (names_no_colon _ H), omit_nothing.
    apply getParams_no_colon, H.
Qed.

Lemma endpoints_without_params :
  forallb (fun e => negb (is_NoParams (shape e))
                    || ((colons (template e) =? 0)%nat && HttpMethod_eqb (verb e) Get))
          endpoints = true.
Proof. vm_compute. reflexivity. Qed.

(** X12.  An endpoint method that takes no parameters
    ([configuration], [accountInfo], ...) requests its template as it
    is, with the default parameters (the api key, and the session id
    when set) as the query string and nothing else. *)
Theorem endpoint_without_params (this : MovieDb) (e : Endpoint) (params : value)
    (fetchOptions : obj) :
  In e endpoints ->
  shape e = NoParams ->
  url (call this e params fetchOptions)
  = baseUrl this ++ template e ++ lit "?" ++ URLSearchParams_toString (default_params this).
Proof.
  intros Hin Hshape.
  pose proof endpoints_without_params as H. rewrite forallb_forall in H.
  specialize (H e Hin). rewrite Hshape in H. cbn [is_NoParams negb orb] in H.
  apply andb_prop in H. destruct H as [Hc Hv]. apply Nat.eqb_eq in Hc.
  unfold call. rewrite Hshape. cbn [endpoint_params url makeRequest]. unfold request_url.
  rewrite Hv.
  destruct (request_no_colon this (template e) VNull Hc) as [-> ->].
  rewrite normalizeParams_scalar by (reflexivity || discriminate).
  rewrite Hc, <- app_assoc. reflexivity.
Qed.

Lemma endpoint_without_params_witness :
  url (call (new_MovieDb "KEY" None) (mkEndpoint "configuration" Get "configuration" NoParams)
            VUndefined [])
  = "https://api.themoviedb.org/3/configuration?api_key=KEY".
Proof.
  apply (endpoint_without_params (new_MovieDb "KEY" None)
           (mkEndpoint "configuration" Get "configuration" NoParams) VUndefined []);
    [left; reflexivity | reflexivity].
Defined.

Lemma endpoints_search :
  forallb (fun e => negb (is_SearchParams (shape e))
                    || ((colons (template e) =? 0)%nat && HttpMethod_eqb (verb e) Get))
          endpoints = true.
Proof. vm_compute. reflexivity. Qed.

Lemma merge_single_new (object : obj) (k : str) (v : value) :
  k <> [] -> forallb is_letter k = true ->
  ~ In k (Object_keys object) ->
  isObject v = false -> v <> VUndefined ->
  merge object [(k, v)] = object ++ [(k, v)].
Proof.
  intros Hne Hk Hout Hobj Hdef. rewrite merge_cons.
  change (merge (merge_step object k v) []) with (merge_step object k v).
  assert (Es : merge_step object k v = obj_set k v object)
    by (destruct v; try reflexivity; [congruence | discriminate]).
  rewrite Es. unfold obj_set, obj_has.
  apply obj_lookup_None_keys in Hout. rewrite Hout.
  apply obj_add_append, array_index_letters; assumption.
Qed.

(** X13.  A search method called with a string sends it as the [query]
    parameter, after the defaults, on the unchanged template: this is
    what [parseSearchParams] is for, since [makeRequest] itself drops a
    scalar on a template without placeholder. *)
Theorem search_string_is_the_query (this : MovieDb) (e : Endpoint) (s : str)
    (fetchOptions : obj) :
  In e endpoints ->
  shape e = SearchParams ->
  url (call this e (VStr s) fetchOptions)
  = baseUrl this ++ template e ++ lit "?"
    ++ URLSearchParams_toString (default_params this ++ [(lit "query", VStr s)])
  /\ makeRequest this (verb e) (template e) (VStr s) fetchOptions
     = makeRequest this (verb e) (template e) (VObj []) fetchOptions.
Proof.
  intros Hin Hshape.
  pose proof endpoints_search as H. rewrite forallb_forall in H.
  specialize (H e Hin). rewrite Hshape in H. cbn [is_SearchParams negb orb] in H.
  apply andb_prop in H. destruct H as [Hc Hv]. apply Nat.eqb_eq in Hc.
  split.
  - unfold call. rewrite Hshape. cbn [endpoint_params url makeRequest]. unfold request_url.
    rewrite Hv.
    destruct (request_no_colon this (template e) (parseSearchParams (VStr s)) Hc) as [-> ->].
    change (normalizeParams (template e) (parseSearchParams (VStr s)))
      with [(lit "query", VStr s)].
    rewrite merge_single_new;
      [ rewrite <- app_assoc; reflexivity | discriminate | reflexivity
      | apply letters_not_default_key; reflexivity | reflexivity | discriminate ].
  - apply makeRequest_normalized.
    rewrite normalizeParams_scalar by (reflexivity || discriminate).
    rewrite Hc. reflexivity.
Qed.

Lemma search_string_is_the_query_witness :
  url (call (new_MovieDb "KEY" None) (mkEndpoint "searchMovie" Get "search/movie" SearchParams)
            (VStr "blade runner") [])
  = "https://api.themoviedb.org/3/search/movie?api_key=KEY&query=blade+runner".
Proof.
  apply (proj1 (search_string_is_the_query (new_MovieDb "KEY" None)
                  (mkEndpoint "searchMovie" Get "search/movie" SearchParams)
                  "blade runner" []
                  ltac:(do 10 right; left; reflexivity) eq_refl)).
Defined.







(** ** The query string *)

Lemma urlencode_byte_chars (c : ascii) : forallb urlencoded_char (urlencode_byte c) = true.
Proof. destruct c as [[] [] [] [] [] [] [] []]; reflexivity. Qed.

Lemma urlencode_chars (s : str) : forallb urlencoded_char (urlencode s) = true.
Proof.
  unfold urlencode. induction s as [|c s IH]; [reflexivity|].
  cbn [flat_map]. rewrite forallb_app, urlencode_byte_chars, IH. reflexivity.
Qed.

Lemma count_occ_excluded (f : ascii -> bool) (l : str) (c : ascii) :
  forallb f l = true -> f c = false -> count_occ ascii_dec l c = 0.
Proof.
  intros Hl Hc. apply count_occ_not_In. intros Hin.
  rewrite forallb_forall in Hl. rewrite (Hl _ Hin) in Hc. discriminate.
Qed.

Lemma join_count (c : ascii) (sep : str) (l : list str) (n m : nat) :
  (forall x, In x l -> count_occ ascii_dec x c = n) ->
  count_occ ascii_dec sep c = m ->
  count_occ ascii_dec (join sep l) c = List.length l * n + pred (List.length l) * m.
Proof.
  intros Hl Hsep. induction l as [|x l IH]; [reflexivity|].
  destruct l as [|y l].
  - cbn [join List.length pred]. rewrite (Hl x (or_introl eq_refl)). lia.
  - change (join sep (x :: y :: l)) with (x ++ sep ++ join sep (y :: l)).
    rewrite !count_occ_app, Hsep, (Hl x (or_introl eq_refl)), IH.
    + cbn [List.length pred]. lia.
    + intros z Hz. apply Hl. right. exact Hz.
Qed.

(** X15.  The query string of a request has one [name=value] pair per
    residual parameter, whatever characters the names and the values
    contain: it has as many equals signs as there are parameters, one
    ampersand between two pairs, and otherwise only letters, digits
    and the characters [*-._+%]. *)
Theorem query_string_shape (q : obj) :
  count_occ ascii_dec (URLSearchParams_toString q) "="%char = List.length q
  /\ count_occ ascii_dec (URLSearchParams_toString q) "&"%char = pred (List.length q)
  /\ forallb (fun c => urlencoded_char c || Ascii.eqb c "=" || Ascii.eqb c "&")
             (URLSearchParams_toString q) = true.
Proof.
  unfold URLSearchParams_toString.
  set (pair := fun kv : str * value =>
                 urlencode (fst kv) ++ lit "=" ++ urlencode (ToString (snd kv))).
  assert (Hpair : forall (c : ascii) x, urlencoded_char c = false ->
            In x (map pair q) ->
            count_occ ascii_dec x c = count_occ ascii_dec (lit "=") c).
  { intros c x Hc Hx. apply in_map_iff in Hx. destruct Hx as [kv [<- _]].
    unfold pair. rewrite !count_occ_app.
    rewrite !(count_occ_excluded _ _ _ (urlencode_chars _) Hc). lia. }
  split; [|split].
  - rewrite (join_count "=" (lit "&") (map pair q) 1 0);
      [rewrite length_map; lia | intros x Hx; apply (Hpair "="%char x eq_refl Hx) | reflexivity].
  - rewrite (join_count "&" (lit "&") (map pair q) 0 1);
      [rewrite length_map; lia | intros x Hx; apply (Hpair "&"%char x eq_refl Hx) | reflexivity].
  - induction q as [|kv q IH]; [reflexivity|].
    assert (Hkv : forallb (fun c => urlencoded_char c || Ascii.eqb c "=" || Ascii.eqb c "&")
                          (pair kv) = true).
    { unfold pair. rewrite !forallb_app. cbn [lit list_ascii_of_string forallb].
      assert (W : forall s, forallb (fun c => urlencoded_char c || Ascii.eqb c "=" || Ascii.eqb c "&")
                              (urlencode s) = true).
      { intros s. apply forallb_forall. intros c Hc.
        pose proof (urlencode_chars s) as Hs. rewrite forallb_forall in Hs.
        rewrite (Hs c Hc). reflexivity. }
      rewrite !W. reflexivity. }
    destruct q as [|kv' q].
    + cbn [map join]. exact Hkv.
    + change (join (lit "&") (map pair (kv :: kv' :: q)))
        with (pair kv ++ lit "&" ++ join (lit "&") (map pair (kv' :: q))).
      rewrite !forallb_app, Hkv, IH; [reflexivity|].
      intros c x Hc Hx. apply (Hpair c x Hc). right. exact Hx.
Qed.

(** ** The authentication handshake *)

Section Handshake.

Variable respond : nat -> Request -> outcome value.
Variable Date_getTime : value -> option Z.

(** X16.  A cached token whose [expires_at] cannot be parsed (the
    parsed time is [NaN]) is never refreshed: at every time
    [requestToken] returns it and sends nothing. *)
Theorem unparseable_expiry_never_refreshes (w : World) (now : Z) :
  truthy (token (client w)) = true ->
  Date_getTime (prop (token (client w)) "expires_at") = None ->
  requestToken respond Date_getTime now w = (Fulfilled (token (client w)), w).
Proof.
  intros Ht Hnan. apply requestToken_cached.
  unfold refresh_due. rewrite Ht, Hnan. reflexivity.
Qed.

(** X17.  When the token request is rejected, [requestToken] is
    rejected with the same reason after that one request, and the
    client is left as it was: no token is stored. *)
Theorem requestToken_rejected (w : World) (now : Z) (reason : value) :
  let request := makeRequest (client w) Get "authentication/token/new" VUndefined [] in
  refresh_due Date_getTime now (client w) = true ->
  respond (List.length (sent w)) request = Rejected reason ->
  requestToken respond Date_getTime now w
  = (Rejected reason, {| client := client w; sent := sent w ++ [request] |}).
Proof.
  intros request Hdue Hresp.
  unfold requestToken, bind, read_client, dispatch. cbn [client sent].
  rewrite Hdue. cbn [client sent]. fold request. rewrite Hresp. reflexivity.
Qed.

(** X18.  [requestToken] touches nothing but the token: the api key,
    the base URL and the session id of the client are as before, and
    the log of requests grows by at most one request, the one for
    [authentication/token/new]. *)
Theorem requestToken_frame (w w' : World) (now : Z) (out : outcome value) :
  requestToken respond Date_getTime now w = (out, w') ->
  apiKey (client w') = apiKey (client w)
  /\ baseUrl (client w') = baseUrl (client w)
  /\ sessionId (client w') = sessionId (client w)
  /\ (sent w' = sent w
      \/ sent w' = sent w ++ [makeRequest (client w) Get "authentication/token/new"
                                          VUndefined []]).
Proof.
  unfold requestToken, bind, read_client, dispatch, set_token, ret. cbn [client sent].
  destruct (refresh_due Date_getTime now (client w)); cbn [client sent].
  - destruct (respond _ _); intros [= <- <-]; cbn [client sent apiKey baseUrl sessionId];
      repeat split; right; reflexivity.
  - intros [= <- <-]. repeat split. left. reflexivity.
Qed.

(** [retrieveSession] once [requestToken] has run. *)
Lemma retrieveSession_after_token (w w1 : World) (now : Z) (out : outcome value) :
  requestToken respond Date_getTime now w = (out, w1) ->
  retrieveSession respond Date_getTime now w
  = match out with
    | Rejected reason => (Rejected reason, w1)
    | Fulfilled tok =>
        match tok with
        | VUndefined | VNull => (Rejected (VStr "TypeError"), w1)
        | _ =>
            let request := makeRequest (client w1) Get "authentication/session/new"
                             (VObj [(lit "request_token", prop tok "request_token")]) [] in
            let w2 := {| client := client w1; sent := sent w1 ++ [request] |} in
            match respond (List.length (sent w1)) request with
            | Rejected reason => (Rejected reason, w2)
            | Fulfilled res =>
                match res with
                | VUndefined | VNull => (Rejected (VStr "TypeError"), w2)
                | _ =>
                    (Fulfilled (prop res "session_id"),
                     {| client := {| apiKey := apiKey (client w1);
                                     token := token (client w1);
                                     baseUrl := baseUrl (client w1);
                                     sessionId := prop res "session_id" |};
                        sent := sent w1 ++ [request] |})
                end
            end
        end
    end.
Proof.
  intros H. unfold retrieveSession. unfold bind at 1. rewrite H.
  destruct out as [tok|reason]; [|reflexivity].
  unfold bind, member, read_client, dispatch, set_sessionId, ret, throw.
  destruct tok; try reflexivity; cbn [client sent];
    destruct (respond _ _) as [res|reason]; try reflexivity;
    destruct res; reflexivity.
Qed.

(** X19.  [retrieveSession] is [requestToken] followed by one request
    for [authentication/session/new] that carries the [request_token]
    of the token; the [session_id] of the response is stored on the
    client and returned.  The exchange is made on every call, whether
    or not a session id is already stored. *)
Theorem retrieveSession_exchange (w w1 : World) (now : Z) (tok res : value) :
  let request := makeRequest (client w1) Get "authentication/session/new"
                   (VObj [(lit "request_token", prop tok "request_token")]) [] in
  requestToken respond Date_getTime now w = (Fulfilled tok, w1) ->
  truthy tok = true ->
  respond (List.length (sent w1)) request = Fulfilled res ->
  res <> VUndefined -> res <> VNull ->
  exists w2,
    retrieveSession respond Date_getTime now w = (Fulfilled (prop res "session_id"), w2)
    /\ sessionId (client w2) = prop res "session_id"
    /\ token (client w2) = token (client w1)
    /\ apiKey (client w2) = apiKey (client w1)
    /\ baseUrl (client w2) = baseUrl (client w1)
    /\ sent w2 = sent w1 ++ [request].
Proof.
  intros request Htok Ht Hres Hu Hn.
  rewrite (retrieveSession_after_token _ _ _ _ Htok).
  destruct tok; try discriminate Ht; cbv zeta; fold request; rewrite Hres;
    destruct res; try congruence; eexists; repeat split.
Qed.

(** X20.  [retrieveSession] fails with its first failing step and
    stores no session id: a rejected token request, or a rejected
    session request, is passed on as it is; a token response that is
    [null] is a [TypeError] raised before the session request is
    sent. *)
Theorem retrieveSession_failures (w w1 : World) (now : Z) :
  (forall reason,
      requestToken respond Date_getTime now w = (Rejected reason, w1) ->
      retrieveSession respond Date_getTime now w = (Rejected reason, w1))
  /\ (requestToken respond Date_getTime now w = (Fulfilled VNull, w1) ->
      retrieveSession respond Date_getTime now w = (Rejected (VStr "TypeError"), w1))
  /\ (forall tok reason,
      requestToken respond Date_getTime now w = (Fulfilled tok, w1) ->
      truthy tok = true ->
      respond (List.length (sent w1))
        (makeRequest (client w1) Get "authentication/session/new"
           (VObj [(lit "request_token", prop tok "request_token")]) [])
      = Rejected reason ->
      exists w2,
        retrieveSession respond Date_getTime now w = (Rejected reason, w2)
        /\ client w2 = client w1).
Proof.
  split; [|split].
  - intros reason H. rewrite (retrieveSession_after_token _ _ _ _ H). reflexivity.
  - intros H. rewrite (retrieveSession_after_token _ _ _ _ H). reflexivity.
  - intros tok reason H Ht Hres. rewrite (retrieveSession_after_token _ _ _ _ H).
    destruct tok; try discriminate Ht; cbv zeta; rewrite Hres;
      eexists; split; reflexivity.
Qed.

Lemma retrieveSession_stores (w w' : World) (now : Z) (sid : value) :
  retrieveSession respond Date_getTime now w = (Fulfilled sid, w') ->
  sessionId (client w') = sid.
Proof.
  destruct (requestToken respond Date_getTime now w) as [out w1] eqn:E.
  rewrite (retrieveSession_after_token _ _ _ _ E).
  destruct out as [tok|reason]; [|discriminate].
  destruct tok; try discriminate; cbv zeta;
    destruct (respond _ _) as [res|reason]; try discriminate;
    destruct res; try discriminate; intros [= <- <-]; reflexivity.
Qed.

(** X21.  After a successful [retrieveSession] that returned a truthy
    session id, the full query of every later request carries that
    session id as [session_id], unless the caller passes one. *)
Theorem session_id_is_used_afterwards (w w' : World) (now : Z) (sid : value)
    (endpoint : str) (params : obj) :
  retrieveSession respond Date_getTime now w = (Fulfilled sid, w') ->
  truthy sid = true ->
  ~ In (lit "session_id") (Object_keys params) ->
  obj_lookup "session_id" (fullQuery (client w') endpoint (VObj params)) = Some sid.
Proof.
  intros H Ht Hout. apply retrieveSession_stores in H.
  unfold fullQuery. change (normalizeParams endpoint (VObj params)) with params.
  rewrite getParams_other_key by discriminate.
  rewrite obj_lookup_merge_absent by exact Hout.
  rewrite default_params_session_id, H, Ht. reflexivity.
Qed.

End Handshake.

Lemma unparseable_expiry_never_refreshes_witness :
  let w := snd (requestToken demo_server (fun _ => None) 0 demo_world) in
  requestToken demo_server (fun _ => None) 1000000 w = (Fulfilled (token (client w)), w).
Proof.
  intros w.
  apply (unparseable_expiry_never_refreshes demo_server (fun _ => None) w 1000000);
    reflexivity.
Defined.

Lemma requestToken_rejected_witness :
  fst (requestToken (fun _ _ => Rejected (VStr "offline")) (fun _ => None) 0 demo_world)
  = Rejected (VStr "offline").
Proof.
  rewrite (requestToken_rejected (fun _ _ => Rejected (VStr "offline")) (fun _ => None)
             demo_world 0 (VStr "offline") eq_refl eq_refl).
  reflexivity.
Defined.

Lemma requestToken_frame_witness :
  sessionId (client (snd (requestToken demo_server (fun _ => None) 0 demo_world)))
  = VUndefined.
Proof.
  exact (proj1 (proj2 (proj2
           (requestToken_frame demo_server (fun _ => None) demo_world _ 0 _ eq_refl)))).
Defined.

Lemma retrieveSession_exchange_witness :
  exists w2,
    retrieveSession demo_server (fun _ => None) 0 demo_world = (Fulfilled (VStr "xyz"), w2)
    /\ sessionId (client w2) = VStr "xyz"
    /\ List.length (sent w2) = 2.
Proof.
  destruct (retrieveSession_exchange demo_server (fun _ => None) demo_world
              (snd (requestToken demo_server (fun _ => None) 0 demo_world)) 0
              (VObj [(lit "success", VBool true); (lit "expires_at", VStr "soon");
                     (lit "request_token", VStr "abc")])
              (VObj [(lit "success", VBool true); (lit "session_id", VStr "xyz")])
              eq_refl eq_refl eq_refl ltac:(discriminate) ltac:(discriminate))
    as [w2 [H [Hs [_ [_ [_ Hsent]]]]]].
  exists w2. split; [exact H|]. split; [exact Hs|]. rewrite Hsent. reflexivity.
Defined.

Lemma retrieveSession_failures_witness :
  fst (retrieveSession (fun _ _ => Rejected (VStr "offline")) (fun _ => None) 0 demo_world)
  = Rejected (VStr "offline").
Proof.
  rewrite (proj1 (retrieveSession_failures (fun _ _ => Rejected (VStr "offline"))
                    (fun _ => None) demo_world
                    (snd (requestToken (fun _ _ => Rejected (VStr "offline"))
                            (fun _ => None) 0 demo_world)) 0)
             (VStr "offline") eq_refl).
  reflexivity.
Defined.

Lemma session_id_is_used_afterwards_witness :
  obj_lookup "session_id"
    (fullQuery (client (snd (retrieveSession demo_server (fun _ => None) 0 demo_world)))
               "account/:id/lists" (VObj [(lit "page", VNum 1)]))
  = Some (VStr "xyz").
Proof.
  apply (session_id_is_used_afterwards demo_server (fun _ => None) demo_world _ 0 (VStr "xyz")
           "account/:id/lists" [(lit "page", VNum 1)]).
  - reflexivity.
  - reflexivity.
  - simpl. intuition discriminate.
Defined.
